(** * Theoretical yield calculator: a shallow embedding of [code.py]

    The Python function [calculate_theoretical_yield] is embedded as a
    function in a small monad that carries Python exceptions and the log
    of the calls made to the external resolver (RDKit's
    [Chem.MolFromSmiles] and [CalcExactMolWt]).

    - The [reactants] dict is given by its items in iteration order; a
      theorem that needs the keys to be distinct, as they are in a dict,
      says so.
    - The fields of a reactant have the types the docstring gives them: a
      [str] SMILES and [float] mass and mole ratio, each possibly absent.
      The module [Untyped] widens the arguments where the code uses them
      outside its [try] blocks: a value of the mapping, or the product
      mole ratio, may be [None] there.
      A Python [float] is an IEEE 754 binary64 number, modelled by a
      primitive float; an [int] in a numeric field behaves as the float it
      is converted to by the first division.
    - The resolver is a parameter: [MolFromSmiles] answers a molecule or
      [None], or raises; [CalcExactMolWt] answers a float, or raises.
    - Exceptions are those below [Exception], which is what the two
      handlers catch. *)

From Stdlib Require Import List String Ascii Bool ZArith PArith Lia.
From Stdlib Require Import Floats.
Import ListNotations.

Local Open Scope string_scope.
Local Open Scope list_scope.

(* ================================================================== *)
(** * Python values and effects *)
(* ================================================================== *)

(** Exceptions derived from Python's [Exception]; [except Exception]
    catches every one of them.  Each carries the text [str(e)] yields. *)
Inductive exn : Type :=
| ZeroDivisionError (msg : string)
| TypeError (msg : string)
| AttributeError (msg : string)
| ValueError (msg : string)
| KeyError (key : string)
| ResolverError (msg : string).   (* any fault raised inside RDKit *)

Definition exn_str (e : exn) : string :=
  match e with
  | ZeroDivisionError m | TypeError m | AttributeError m | ValueError m
  | ResolverError m => m
  | KeyError k => "'" ++ k ++ "'"
  end.

(** Calls into the external resolver are logged with their call site:
    line 38/42 for a reactant, line 61/65 for the product. *)
Inductive site : Type :=
| ReactantSite (name : string)
| ProductSite.

Inductive event : Type :=
| MolFromSmilesCall (at_site : site) (smiles : string)
| CalcExactMolWtCall (at_site : site).

Inductive outcome (A : Type) : Type :=
| Normal (a : A)
| Raised (e : exn).
Arguments Normal {A} a.
Arguments Raised {A} e.

(** A computation reads and extends the log of resolver calls and either
    yields a value or raises. *)
Definition Py (A : Type) : Type := list event -> outcome A * list event.

Definition ret {A} (a : A) : Py A := fun t => (Normal a, t).

Definition raise {A} (e : exn) : Py A := fun t => (Raised e, t).

Definition bind {A B} (m : Py A) (f : A -> Py B) : Py B :=
  fun t =>
    match m t with
    | (Normal a, t') => f a t'
    | (Raised e, t') => (Raised e, t')
    end.

(** [try: body  except Exception as e: handler e] *)
Definition try_except {A} (body : Py A) (handler : exn -> Py A) : Py A :=
  fun t =>
    match body t with
    | (Normal a, t') => (Normal a, t')
    | (Raised e, t') => handler e t'
    end.

(** An external call: the collaborator's answer, with the call logged. *)
Definition external {A} (ev : event) (answer : outcome A) : Py A :=
  fun t => (answer, t ++ [ev]).

Declare Scope py_scope.
Delimit Scope py_scope with py.
Notation "x <- m ;; k" := (bind m (fun x => k))
  (at level 100, m at next level, right associativity) : py_scope.
Local Open Scope py_scope.

(** ** Floats *)

(** [a / b] on floats: CPython's [float_div] raises on a zero divisor
    (of either sign) instead of producing an IEEE infinity or NaN; the
    message is the one CPython sets. *)
Definition py_truediv (a b : float) : Py float :=
  if (b =? 0)%float
  then raise (ZeroDivisionError "float division by zero")
  else ret (a / b)%float.

(** [bool(x)] for a float: [x != 0.0]; NaN is truthy, [-0.0] is not. *)
Definition float_truthy (x : float) : bool := negb (x =? 0)%float.

(** [bool(s)] for a str: non-empty. *)
Definition str_truthy (s : string) : bool := negb (String.eqb s "").

(** [a < b] where either operand may be [None]. *)
Definition py_lt (a b : option float) : Py bool :=
  match a, b with
  | Some x, Some y => ret (x <? y)%float
  | _, _ =>
      raise (TypeError "'<' not supported between instances of 'NoneType' and 'float'")
  end.

(** [a * b] where [a] is a float and [b] a float or [None]. *)
Definition py_mul (a : float) (b : option float) : Py float :=
  match b with
  | Some y => ret (a * y)%float
  | None =>
      raise (TypeError "unsupported operand type(s) for *: 'float' and 'NoneType'")
  end.

(** ** The dict [moles_of_reactants]: insertion-ordered, keys unique *)

Definition dict : Type := list (string * float).

(** [d[k] = v]: an existing key keeps its position, a new key goes last. *)
Fixpoint dict_setitem (d : dict) (k : string) (v : float) : dict :=
  match d with
  | [] => [(k, v)]
  | (k', v') :: d' =>
      if String.eqb k' k then (k', v) :: d'
      else (k', v') :: dict_setitem d' k v
  end.

(** [d.get(k)] *)
Fixpoint dict_get (d : dict) (k : string) : option float :=
  match d with
  | [] => None
  | (k', v') :: d' => if String.eqb k' k then Some v' else dict_get d' k
  end.

(** [d[k]] *)
Definition dict_getitem (d : dict) (k : string) : Py float :=
  match dict_get d k with
  | Some v => ret v
  | None => raise (KeyError k)
  end.

(** Iterating a dict yields its keys in insertion order. *)
Definition dict_keys (d : dict) : list string := map fst d.

(** [min(iterable, key=key)]: CPython's [min_max] keeps the first item and
    replaces it only by an item whose key is strictly smaller. *)
Fixpoint min_loop (key : string -> option float)
    (maxitem : string) (maxval : option float) (it : list string)
    : Py string :=
  match it with
  | [] => ret maxitem
  | item :: it' =>
      let val := key item in
      c <- py_lt val maxval ;;
      if c then min_loop key item val it'
      else min_loop key maxitem maxval it'
  end.

Definition py_min (iterable : list string) (key : string -> option float)
    : Py string :=
  match iterable with
  | [] => raise (ValueError "min() arg is an empty sequence")
  | item :: it => min_loop key item (key item) it
  end.

(* ================================================================== *)
(** * The calculator *)
(* ================================================================== *)

(** The value stored for one reactant: what [data.get(...)] returns for
    each of the three keys, [None] standing for an absent key. *)
Record reactant_data : Type := {
  smiles : option string;
  weight_g : option float;
  mole_ratio : option float
}.

(** [data.get('mole_ratio', 1.0)] *)
Definition get_mole_ratio (data : reactant_data) : float :=
  match mole_ratio data with
  | Some r => r
  | None => 1.0%float
  end.

(** Line 34, [not smiles or not weight_g]: a key is absent, the SMILES is
    the empty string, or the mass is zero. *)
Definition lacks_smiles_or_weight (data : reactant_data) : bool :=
  match smiles data, weight_g data with
  | Some s, Some w => negb (str_truthy s) || negb (float_truthy w)
  | _, _ => true
  end.

(** The same reactant with an empty SMILES and a zero mass taken out of
    the record, as if the keys had never been set. *)
Definition blank (data : reactant_data) : reactant_data :=
  {| smiles := match smiles data with
               | Some s => if str_truthy s then Some s else None
               | None => None
               end;
     weight_g := match weight_g data with
                 | Some w => if float_truthy w then Some w else None
                 | None => None
                 end;
     mole_ratio := mole_ratio data |}.

(** The returned dict: [{"error": ...}] or
    [{"theoretical_yield_g": ..., "limiting_reactant": ...}]. *)
Inductive result : Type :=
| Error (error : string)
| Success (theoretical_yield_g : float) (limiting_reactant : string).

(** What one pass through the body of the [for] loop does. *)
Inductive loop_step : Type :=
| Returns (r : result)
| Continues (moles_of_reactants : dict).

(** ** Vocabulary of the specification *)

(** A positive real number: a float strictly between 0 and infinity. *)
Definition positive_real (x : float) : bool :=
  ((0 <? x) && (x <? infinity))%float.

(** The failure records of section 7, as the code words them. *)
Definition missing_field (name : string) : result :=
  Error ("Invalid data for reactant '" ++ name
         ++ "'. Missing SMILES or weight.").

Definition reactant_parse_failure (name smiles : string) : result :=
  Error ("Could not parse SMILES for reactant '" ++ name ++ "': " ++ smiles).

Definition reactant_fault (name : string) (e : exn) : result :=
  Error ("An error occurred with reactant '" ++ name ++ "': " ++ exn_str e).

Definition no_reactants : result := Error "No valid reactants provided.".

Definition product_parse_failure (product_smiles : string) : result :=
  Error ("Could not parse SMILES for product: " ++ product_smiles).

Definition product_fault (e : exn) : result :=
  Error ("An error occurred with the product SMILES: " ++ exn_str e).

(** The error taxonomy, read off the description's opening words. *)
Inductive error_kind : Type :=
| MissingField
| ParseFailure
| NoReactants
| UnexpectedFailure.

Definition kind_of (r : result) : option error_kind :=
  match r with
  | Success _ _ => None
  | Error msg =>
      if prefix "Invalid data for reactant '" msg then Some MissingField
      else if prefix "Could not parse SMILES for " msg then Some ParseFailure
      else if String.eqb msg "No valid reactants provided." then Some NoReactants
      else if prefix "An error occurred with " msg then Some UnexpectedFailure
      else None
  end.

Definition is_product_event (ev : event) : bool :=
  match ev with
  | MolFromSmilesCall ProductSite _ | CalcExactMolWtCall ProductSite => true
  | _ => false
  end.

(** A log extension that holds no call made for the product. *)
Definition reactant_only (evs : list event) : Prop :=
  Forall (fun ev => is_product_event ev = false) evs.

(** Storing the entries [es], in order, into the dict [d]. *)
Definition dict_update (d es : dict) : dict :=
  fold_left (fun d e => dict_setitem d (fst e) (snd e)) es d.

Section Calculator.

(** The external collaborator (RDKit).  [MolFromSmiles] answers [None]
    for a string it cannot parse; a molecule object is always truthy. *)
Variable Mol : Type.
Variable MolFromSmiles : string -> outcome (option Mol).
Variable CalcExactMolWt : Mol -> outcome float.

Definition Chem_MolFromSmiles (at_site : site) (s : string)
    : Py (option Mol) :=
  external (MolFromSmilesCall at_site s) (MolFromSmiles s).

Definition Chem_CalcExactMolWt (at_site : site) (mol : Mol) : Py float :=
  external (CalcExactMolWtCall at_site) (CalcExactMolWt mol).

(** Lines 31-47: the loop body for one [(name, data)] item. *)
Definition reactant_step (name : string) (data : reactant_data)
    (moles_of_reactants : dict) : Py loop_step :=
  match smiles data, weight_g data with
  | Some smiles, Some weight_g =>
      if negb (str_truthy smiles) || negb (float_truthy weight_g) then
        ret (Returns (Error ("Invalid data for reactant '" ++ name
                             ++ "'. Missing SMILES or weight.")))
      else
        try_except
          (mol <- Chem_MolFromSmiles (ReactantSite name) smiles ;;
           match mol with
           | None =>
               ret (Returns (Error ("Could not parse SMILES for reactant '"
                                    ++ name ++ "': " ++ smiles)))
           | Some mol =>
               mol_weight <- Chem_CalcExactMolWt (ReactantSite name) mol ;;
               moles <- py_truediv weight_g mol_weight ;;
               normalized <- py_truediv moles (get_mole_ratio data) ;;
               ret (Continues (dict_setitem moles_of_reactants name normalized))
           end)
          (fun e =>
             ret (Returns (Error ("An error occurred with reactant '" ++ name
                                  ++ "': " ++ exn_str e))))
  | _, _ =>
      (* [data.get] gave [None], and [not None] is [True] *)
      ret (Returns (Error ("Invalid data for reactant '" ++ name
                           ++ "'. Missing SMILES or weight.")))
  end.

(** Lines 30-47: [for name, data in reactants.items()]. *)
Fixpoint reactant_loop (items : list (string * reactant_data))
    (moles_of_reactants : dict) : Py loop_step :=
  match items with
  | [] => ret (Continues moles_of_reactants)
  | (name, data) :: items' =>
      s <- reactant_step name data moles_of_reactants ;;
      match s with
      | Returns r => ret (Returns r)
      | Continues moles_of_reactants' =>
          reactant_loop items' moles_of_reactants'
      end
  end.

(** Lines 60-67: resolving the product. *)
Definition product_weight (product_smiles : string)
    : Py (result + float) :=
  try_except
    (product_mol <- Chem_MolFromSmiles ProductSite product_smiles ;;
     match product_mol with
     | None =>
         ret (inl (Error ("Could not parse SMILES for product: "
                          ++ product_smiles)))
     | Some product_mol =>
         product_mol_weight <- Chem_CalcExactMolWt ProductSite product_mol ;;
         ret (inr product_mol_weight)
     end)
    (fun e =>
       ret (inl (Error ("An error occurred with the product SMILES: "
                        ++ exn_str e)))).

(** Lines 12-75.  [reactants] is the dict argument given by its items in
    iteration order. *)
Definition calculate_theoretical_yield
    (reactants : list (string * reactant_data))
    (product_smiles : string) (mole_ratio_product : float) : Py result :=
  s <- reactant_loop reactants [] ;;
  match s with
  | Returns r => ret r
  | Continues moles_of_reactants =>
      match moles_of_reactants with
      | [] => ret (Error "No valid reactants provided.")
      | _ :: _ =>
          limiting_reactant_name <-
            py_min (dict_keys moles_of_reactants)
                   (dict_get moles_of_reactants) ;;
          moles_limiting <-
            dict_getitem moles_of_reactants limiting_reactant_name ;;
          let theoretical_moles_product :=
            (moles_limiting * mole_ratio_product)%float in
          p <- product_weight product_smiles ;;
          match p with
          | inl r => ret r
          | inr product_mol_weight =>
              let theoretical_yield_g :=
                (theoretical_moles_product * product_mol_weight)%float in
              ret (Success theoretical_yield_g limiting_reactant_name)
          end
      end
  end.

(** The exact weight of the structure a SMILES string resolves to. *)
Definition exact_weight (s : string) : option float :=
  match MolFromSmiles s with
  | Normal (Some mol) =>
      match CalcExactMolWt mol with
      | Normal w => Some w
      | Raised _ => None
      end
  | _ => None
  end.

(** The exact molecular weight of a reactant. *)
Definition molecular_weight (data : reactant_data) : option float :=
  match smiles data with
  | Some s => exact_weight s
  | None => None
  end.

(** The normalized mole count of a reactant,
    [(mass / exact weight) / mole ratio], defined when the SMILES and the
    mass are present and truthy, the SMILES resolves, and neither divisor
    is zero. *)
Definition normalized_moles (data : reactant_data) : option float :=
  match smiles data, weight_g data with
  | Some s, Some w =>
      if str_truthy s && float_truthy w then
        match exact_weight s with
        | Some mw =>
            if (mw =? 0)%float || (get_mole_ratio data =? 0)%float then None
            else Some ((w / mw) / get_mole_ratio data)%float
        | None => None
        end
      else None
  | _, _ => None
  end.

(** The normalized mole counts of all reactants, in iteration order. *)
Fixpoint all_moles (items : list (string * reactant_data)) : option dict :=
  match items with
  | [] => Some []
  | (name, data) :: items' =>
      match normalized_moles data, all_moles items' with
      | Some v, Some d => Some ((name, v) :: d)
      | _, _ => None
      end
  end.

(** A reactant as the data model has it: a non-empty SMILES that resolves
    to a structure of positive weight, a positive mass and a positive mole
    ratio (1.0 when unspecified). *)
Definition well_formed (data : reactant_data) : bool :=
  match smiles data, weight_g data with
  | Some s, Some w =>
      str_truthy s && positive_real w && positive_real (get_mole_ratio data)
      && match exact_weight s with
         | Some mw => positive_real mw
         | None => false
         end
  | _, _ => false
  end.

(** A SMILES string the resolver cannot parse. *)
Definition unresolvable (s : string) : Prop := MolFromSmiles s = Normal None.

End Calculator.

Arguments reactant_step {Mol}.
Arguments reactant_loop {Mol}.
Arguments product_weight {Mol}.
Arguments calculate_theoretical_yield {Mol}.
Arguments exact_weight {Mol}.
Arguments molecular_weight {Mol}.
Arguments normalized_moles {Mol}.
Arguments all_moles {Mol}.
Arguments well_formed {Mol}.
Arguments unresolvable {Mol}.

(** ** Arguments outside the documented types

    Python checks no type at the call, and two statements outside the
    [try] blocks use an argument as it comes: line 31 calls [data.get] on
    a value of the mapping, line 57 multiplies by [mole_ratio_product].
    Here a value of the mapping is a dict of fields or [None], and the
    product mole ratio is a float or [None]; on dicts and a float the
    function is the one above. *)
Module Untyped.

Section Calculator.

Variable Mol : Type.
Variable MolFromSmiles : string -> outcome (option Mol).
Variable CalcExactMolWt : Mol -> outcome float.

(** Lines 31-47.  [None] has no attribute [get]: line 31 raises, before
    the [try] of line 37 is entered. *)
Definition reactant_step (name : string) (data : option reactant_data)
    (moles_of_reactants : dict) : Py loop_step :=
  match data with
  | None => raise (AttributeError "'NoneType' object has no attribute 'get'")
  | Some data =>
      reactant_step MolFromSmiles CalcExactMolWt name data moles_of_reactants
  end.

(** Lines 30-47. *)
Fixpoint reactant_loop (items : list (string * option reactant_data))
    (moles_of_reactants : dict) : Py loop_step :=
  match items with
  | [] => ret (Continues moles_of_reactants)
  | (name, data) :: items' =>
      s <- reactant_step name data moles_of_reactants ;;
      match s with
      | Returns r => ret (Returns r)
      | Continues moles_of_reactants' =>
          reactant_loop items' moles_of_reactants'
      end
  end.

(** Lines 12-75. *)
Definition calculate_theoretical_yield
    (reactants : list (string * option reactant_data))
    (product_smiles : string) (mole_ratio_product : option float)
    : Py result :=
  s <- reactant_loop reactants [] ;;
  match s with
  | Returns r => ret r
  | Continues moles_of_reactants =>
      match moles_of_reactants with
      | [] => ret (Error "No valid reactants provided.")
      | _ :: _ =>
          limiting_reactant_name <-
            py_min (dict_keys moles_of_reactants)
                   (dict_get moles_of_reactants) ;;
          moles_limiting <-
            dict_getitem moles_of_reactants limiting_reactant_name ;;
          theoretical_moles_product <-
            py_mul moles_limiting mole_ratio_product ;;
          p <- product_weight MolFromSmiles CalcExactMolWt product_smiles ;;
          match p with
          | inl r => ret r
          | inr product_mol_weight =>
              let theoretical_yield_g :=
                (theoretical_moles_product * product_mol_weight)%float in
              ret (Success theoretical_yield_g limiting_reactant_name)
          end
      end
  end.

End Calculator.

Arguments reactant_step {Mol}.
Arguments reactant_loop {Mol}.
Arguments calculate_theoretical_yield {Mol}.


End Untyped.

(** The entry [min] settles on when it scans the entries of a dict whose
    key function is the dict's own lookup. *)
Fixpoint min_scan (best : string * float) (rest : dict) : string * float :=
  match rest with
  | [] => best
  | e :: rest' =>
      min_scan (if (snd e <? snd best)%float then e else best) rest'
  end.

(** [m] runs to outcome [o], appending [evs] to whatever log it starts
    from. *)
Definition runs {A} (m : Py A) (o : outcome A) (evs : list event) : Prop :=
  forall t, m t = (o, t ++ evs).

(* ================================================================== *)
(** * Order facts about binary64 comparison *)
(* ================================================================== *)

Module FloatOrder.

(** The comparison of the specification floats, as a relation. *)
Definition sf_lt (x y : spec_float) : Prop := SFcompare x y = Some Lt.
Definition sf_eq (x y : spec_float) : Prop := SFcompare x y = Some Eq.

Ltac cmp_cases :=
  repeat match goal with
    | |- context [Z.compare ?a ?b] =>
        destruct (Z.compare_spec a b); subst
    | H : context [Z.compare ?a ?b] |- _ =>
        destruct (Z.compare_spec a b); subst
    | |- context [Pos.compare_cont Eq ?a ?b] =>
        change (Pos.compare_cont Eq a b) with (Pos.compare a b);
        destruct (Pos.compare_spec a b); subst
    | H : context [Pos.compare_cont Eq ?a ?b] |- _ =>
        change (Pos.compare_cont Eq a b) with (Pos.compare a b) in H;
        destruct (Pos.compare_spec a b); subst
    end.

Ltac sf_crush :=
  unfold sf_lt, sf_eq, SFcompare in *;
  repeat match goal with
    | s : bool |- _ => destruct s
    end;
  simpl in *; cmp_cases; simpl in *;
  try discriminate; try reflexivity; try lia.

Lemma sf_lt_trans (x y z : spec_float) :
  sf_lt x y -> sf_lt y z -> sf_lt x z.
Proof.
  destruct x as [sx| sx| |sx mx ex], y as [sy|sy| |sy my ey],
    z as [sz|sz| |sz mz ez]; intros Hxy Hyz; sf_crush.
Qed.

Lemma sf_eq_lt_trans (x y z : spec_float) :
  sf_eq x y -> sf_lt y z -> sf_lt x z.
Proof.
  destruct x as [sx| sx| |sx mx ex], y as [sy|sy| |sy my ey],
    z as [sz|sz| |sz mz ez]; intros Hxy Hyz; sf_crush.
Qed.

Lemma sf_lt_irrefl (x : spec_float) : ~ sf_lt x x.
Proof.
  destruct x as [sx| sx| |sx mx ex]; intros H; sf_crush.
Qed.

Lemma sf_compare_opp (x y : spec_float) (c : comparison) :
  SFcompare x y = Some c -> SFcompare y x = Some (CompOpp c).
Proof.
  destruct x as [sx| sx| |sx mx ex], y as [sy|sy| |sy my ey];
    intros H; unfold SFcompare in *;
    repeat match goal with s : bool |- _ => destruct s end;
    simpl in *; try discriminate;
    injection H as <-; try reflexivity;
    rewrite ?(Z.compare_antisym ey ex);
    change (Pos.compare_cont Eq my mx) with (Pos.compare my mx);
    change (Pos.compare_cont Eq mx my) with (Pos.compare mx my);
    rewrite ?(Pos.compare_antisym my mx);
    destruct (Z.compare ey ex); simpl; try reflexivity;
    destruct (Pos.compare my mx); reflexivity.
Qed.

Lemma sf_compare_total (x y : spec_float) :
  SFcompare x x = Some Eq -> SFcompare y y = Some Eq ->
  exists c, SFcompare x y = Some c.
Proof.
  destruct x as [sx| sx| |sx mx ex], y as [sy|sy| |sy my ey];
    simpl; intros Hx Hy; try discriminate; eauto.
Qed.

End FloatOrder.

(** ** The same facts for primitive floats *)

Section PrimFloatOrder.
Import FloatOrder.
Local Open Scope float_scope.

Lemma ltb_sf (x y : float) :
  (x <? y) = true <-> sf_lt (Prim2SF x) (Prim2SF y).
Proof.
  rewrite ltb_spec. unfold SFltb, sf_lt.
  destruct (SFcompare (Prim2SF x) (Prim2SF y)) as [[]|];
    split; intros H; try discriminate; reflexivity.
Qed.

Lemma eqb_sf (x y : float) :
  (x =? y) = true <-> sf_eq (Prim2SF x) (Prim2SF y).
Proof.
  rewrite eqb_spec. unfold SFeqb, sf_eq.
  destruct (SFcompare (Prim2SF x) (Prim2SF y)) as [[]|];
    split; intros H; try discriminate; reflexivity.
Qed.

Lemma ltb_trans (x y z : float) :
  (x <? y) = true -> (y <? z) = true -> (x <? z) = true.
Proof. rewrite !ltb_sf. apply sf_lt_trans. Qed.

Lemma ltb_irrefl (x : float) : (x <? x) = false.
Proof.
  destruct (x <? x) eqn:E; [|reflexivity].
  apply ltb_sf in E. destruct (sf_lt_irrefl _ E).
Qed.

Lemma eqb_ltb_trans (x y z : float) :
  (x =? y) = true -> (y <? z) = true -> (x <? z) = true.
Proof. rewrite eqb_sf, !ltb_sf. apply sf_eq_lt_trans. Qed.

Lemma ltb_asym (x y : float) : (x <? y) = true -> (y <? x) = false.
Proof.
  intros H. destruct (y <? x) eqn:E; [|reflexivity].
  pose proof (ltb_trans _ _ _ H E) as C. now rewrite ltb_irrefl in C.
Qed.

Lemma ltb_neq (x y : float) : (x <? y) = true -> (y =? x) = false.
Proof.
  intros H. destruct (y =? x) eqn:E; [|reflexivity].
  pose proof (eqb_ltb_trans _ _ _ E H) as C. now rewrite ltb_irrefl in C.
Qed.

(** Away from NaN the comparison is total. *)
Lemma not_ltb_leb (x y : float) :
  is_nan x = false -> is_nan y = false ->
  (y <? x) = false -> (x <=? y) = true.
Proof.
  unfold is_nan. intros Hx Hy.
  apply negb_false_iff in Hx, Hy. apply eqb_sf in Hx, Hy.
  destruct (sf_compare_total _ _ Hx Hy) as [c Hc].
  rewrite ltb_spec, leb_spec. unfold SFltb, SFleb.
  rewrite (sf_compare_opp _ _ _ Hc), Hc.
  destruct c; simpl; intros H; try discriminate; reflexivity.
Qed.

Lemma not_ltb_not_eqb_ltb (x y : float) :
  is_nan x = false -> is_nan y = false ->
  (y <? x) = false -> (y =? x) = false -> (x <? y) = true.
Proof.
  unfold is_nan. intros Hx Hy.
  apply negb_false_iff in Hx, Hy. apply eqb_sf in Hx, Hy.
  destruct (sf_compare_total _ _ Hx Hy) as [c Hc].
  rewrite !ltb_spec, eqb_spec. unfold SFltb, SFeqb.
  rewrite (sf_compare_opp _ _ _ Hc), Hc.
  destruct c; simpl; intros H1 H2; try discriminate; reflexivity.
Qed.

End PrimFloatOrder.

(** ** Multiplying and dividing by [1.0] are exact *)

Section Rounding.
Local Open Scope Z_scope.

Definition sf_one : spec_float := S754_finite false 4503599627370496 (-52).

Lemma Prim2SF_one : Prim2SF 1%float = sf_one.
Proof. reflexivity. Qed.

Lemma canonical_fexp m e :
  bounded prec emax m e = true ->
  fexp prec emax (Zpos (digits2_pos m) + e) = e /\ e <= emax - prec.
Proof.
  unfold bounded, canonical_mantissa. intros H.
  apply andb_true_iff in H. destruct H as [H1 H2].
  apply Z.eqb_eq in H1. apply Z.leb_le in H2. auto.
Qed.

Lemma round_fixed (s : bool) (m : positive) (e : Z) :
  bounded prec emax m e = true ->
  binary_round_aux prec emax s (Zpos m) e loc_Exact = S754_finite s m e.
Proof.
  intros B. destruct (canonical_fexp _ _ B) as [Hc Hle].
  unfold binary_round_aux, shr_fexp. cbn [Zdigits2 shr_record_of_loc].
  rewrite Hc, Z.sub_diag. cbn [shr loc_of_shr_record shr_m round_nearest_even Zdigits2 shr_record_of_loc].
  rewrite Hc, Z.sub_diag. cbn [shr shr_m].
  apply Z.leb_le in Hle. now rewrite Hle.
Qed.

Lemma round_shifted (s : bool) (M E : Z) (m k : positive) (e : Z) :
  bounded prec emax m e = true ->
  Zdigits2 M + E = Zpos (digits2_pos m) + e ->
  e - E = Zpos k ->
  iter_pos shr_1 k (Build_shr_record M false false)
    = Build_shr_record (Zpos m) false false ->
  binary_round_aux prec emax s M E loc_Exact = S754_finite s m e.
Proof.
  intros B Hd Hk Hit. destruct (canonical_fexp _ _ B) as [Hc Hle].
  unfold binary_round_aux, shr_fexp. cbn [shr_record_of_loc].
  rewrite Hd, Hc, Hk. cbn [shr]. rewrite Hit.
  cbn [loc_of_shr_record shr_m round_nearest_even Zdigits2 shr_record_of_loc].
  replace (E + Zpos k) with e by lia.
  rewrite Hc, Z.sub_diag. cbn [shr shr_m].
  apply Z.leb_le in Hle. now rewrite Hle.
Qed.

Lemma SFmul_one_r (x : spec_float) :
  valid_binary x = true -> SF64mul x sf_one = x.
Proof.
  destruct x as [s|s| |s m e]; unfold SF64mul; cbn [SFmul sf_one SpecFloat.valid_binary]; intros V;
    rewrite ?xorb_false_r; try reflexivity.
  rewrite Pos.mul_comm.
  apply round_shifted with (k := 52%positive);
    [ assumption
    | cbn [Pos.mul Zdigits2 digits2_pos]; rewrite !Pos2Z.inj_succ; lia
    | lia
    | reflexivity ].
Qed.


Lemma div_eucl_div_mod (a b : Z) : Z.div_eucl a b = (a / b, a mod b).
Proof. unfold Z.div, Z.modulo. now destruct (Z.div_eucl a b). Qed.

Lemma div_core_one (m : positive) (e : Z) :
  bounded prec emax m e = true ->
  SFdiv_core_binary prec emax (Zpos m) e 4503599627370496 (-52)
  = if e =? -1074 then (Zpos m, e, loc_Exact)
    else (Zpos m~0, e - 1, loc_Exact).
Proof.
  intros B. destruct (canonical_fexp _ _ B) as [Hc Hle].
  unfold SFdiv_core_binary.
  change (Zdigits2 4503599627370496) with 53.
  cbn [Zdigits2].
  pose proof (Pos2Z.is_pos (digits2_pos m)) as Hd.
  set (d := Zpos (digits2_pos m)) in *.
  unfold fexp, emin, prec, emax in *.
  destruct (Z.eqb_spec e (-1074)) as [He|He].
  - replace (Z.min (Z.max (d + e - (53 + -52) - 53) (3 - 1024 - 53)) (e - -52))
      with e by lia.
    replace (e - -52 - e) with 52 by lia.
    rewrite div_eucl_div_mod, Z.shiftl_mul_pow2 by lia.
    rewrite Z.div_mul, Z.mod_mul by discriminate. reflexivity.
  - replace (Z.min (Z.max (d + e - (53 + -52) - 53) (3 - 1024 - 53)) (e - -52))
      with (e - 1) by lia.
    replace (e - -52 - (e - 1)) with 53 by lia.
    rewrite div_eucl_div_mod, Z.shiftl_mul_pow2 by lia.
    change (2 ^ 53) with (2 * 4503599627370496).
    rewrite Z.mul_assoc.
    rewrite Z.div_mul, Z.mod_mul by discriminate.
    replace (Zpos m * 2) with (Zpos m~0) by lia. reflexivity.
Qed.

Lemma SFdiv_one_r (x : spec_float) :
  valid_binary x = true -> SF64div x sf_one = x.
Proof.
  destruct x as [s|s| |s m e]; unfold SF64div;
    cbn [SFdiv sf_one SpecFloat.valid_binary]; intros V;
    rewrite ?xorb_false_r; try reflexivity.
  rewrite (div_core_one _ _ V).
  destruct (Z.eqb_spec e (-1074)) as [He|He].
  - now apply round_fixed.
  - apply round_shifted with (k := 1%positive);
      [ assumption
      | cbn [Zdigits2 digits2_pos]; rewrite Pos2Z.inj_succ; lia
      | lia
      | reflexivity ].
Qed.

Lemma mul_one_r (x : float) : (x * 1)%float = x.
Proof.
  apply Prim2SF_inj. rewrite mul_spec, Prim2SF_one.
  apply SFmul_one_r, Prim2SF_valid.
Qed.

Lemma div_one_r (x : float) : (x / 1)%float = x.
Proof.
  apply Prim2SF_inj. rewrite div_spec, Prim2SF_one.
  apply SFdiv_one_r, Prim2SF_valid.
Qed.

(** ** Division by a positive real never yields NaN *)
Lemma sf_compare_refl (x : spec_float) :
  x <> S754_nan -> SFcompare x x = Some Eq.
Proof.
  destruct x as [s|s| |s m e]; intros H; try congruence; cbn [SFcompare].
  - reflexivity.
  - destruct s; reflexivity.
  - change (Pos.compare_cont Eq m m) with (Pos.compare m m).
    rewrite Z.compare_refl, Pos.compare_refl. destruct s; reflexivity.
Qed.

Lemma is_nan_sf (x : float) : is_nan x = false <-> Prim2SF x <> S754_nan.
Proof.
  unfold is_nan. rewrite eqb_spec. unfold SFeqb. split.
  - intros H E. rewrite E in H. discriminate.
  - intros H. now rewrite (sf_compare_refl _ H).
Qed.

Lemma iter_pos_invariant {A} (P : A -> Prop) (f : A -> A) :
  (forall x, P x -> P (f x)) -> forall n x, P x -> P (iter_pos f n x).
Proof.
  intros Hf. induction n as [n IH|n IH|]; intros x Hx; cbn [iter_pos]; auto.
Qed.

Lemma shr_1_nonneg (mrs : shr_record) :
  0 <= shr_m mrs -> 0 <= shr_m (shr_1 mrs).
Proof.
  destruct mrs as [m r s]. cbn [shr_m shr_1].
  destruct m as [|[p|p|]|[p|p|]]; cbn [shr_m]; lia.
Qed.

Lemma shr_fexp_nonneg (m e : Z) (l : location) :
  0 <= m -> 0 <= shr_m (fst (shr_fexp prec emax m e l)).
Proof.
  intros Hm. unfold shr_fexp, shr.
  assert (H0 : 0 <= shr_m (shr_record_of_loc m l))
    by (destruct l as [|[]]; exact Hm).
  destruct (fexp prec emax (Zdigits2 m + e) - e); cbn [fst]; auto.
  apply iter_pos_invariant with (P := fun r => 0 <= shr_m r); auto.
  apply shr_1_nonneg.
Qed.

Lemma round_nearest_even_nonneg (m : Z) (l : location) :
  0 <= m -> 0 <= round_nearest_even m l.
Proof.
  intros Hm. destruct l as [|[]]; cbn [round_nearest_even]; try lia.
  destruct (Z.even m); lia.
Qed.

Lemma binary_round_aux_not_nan (s : bool) (m e : Z) (l : location) :
  0 <= m -> binary_round_aux prec emax s m e l <> S754_nan.
Proof.
  intros Hm. unfold binary_round_aux.
  pose proof (shr_fexp_nonneg m e l Hm) as H1.
  destruct (shr_fexp prec emax m e l) as [mrs' e'] eqn:E1. cbn [fst] in H1.
  pose proof (shr_fexp_nonneg _ e' loc_Exact
                (round_nearest_even_nonneg _ (loc_of_shr_record mrs') H1)) as H2.
  destruct (shr_fexp prec emax _ e' loc_Exact) as [mrs'' e''] eqn:E2.
  cbn [fst] in H2.
  destruct (shr_m mrs'') as [|p|p]; try discriminate; try lia.
  destruct (e'' <=? emax - prec); discriminate.
Qed.

Lemma SFdiv_finite_not_nan (x : spec_float) (s : bool) (m : positive) (e : Z) :
  x <> S754_nan -> SF64div x (S754_finite s m e) <> S754_nan.
Proof.
  intros Hx. unfold SF64div.
  destruct x as [sx|sx| |sx mx ex]; cbn [SFdiv]; try discriminate; try congruence.
  unfold SFdiv_core_binary.
  set (m' := match _ with 0 => Zpos mx | Zpos _ => _ | Zneg _ => 0 end).
  assert (Hm' : 0 <= m').
  { subst m'. destruct (_ - _ - _)%Z; try lia.
    rewrite Z.shiftl_mul_pow2 by lia. lia. }
  rewrite div_eucl_div_mod.
  apply binary_round_aux_not_nan. apply Z.div_pos; lia.
Qed.

Lemma positive_real_sf (x : float) :
  positive_real x = true -> exists m e, Prim2SF x = S754_finite false m e.
Proof.
  unfold positive_real. rewrite !ltb_spec. unfold SFltb.
  change (Prim2SF 0) with (S754_zero false).
  change (Prim2SF infinity) with (S754_infinity false).
  destruct (Prim2SF x) as [s|s| |s m e]; cbn [SFcompare];
    try destruct s; cbn; try discriminate; eauto.
Qed.

Lemma positive_real_nonzero (x : float) :
  positive_real x = true -> (x =? 0)%float = false.
Proof.
  intros H. destruct (positive_real_sf x H) as (m & e & E).
  rewrite eqb_spec, E. reflexivity.
Qed.

Lemma positive_real_not_nan (x : float) :
  positive_real x = true -> is_nan x = false.
Proof.
  intros H. destruct (positive_real_sf x H) as (m & e & E).
  apply is_nan_sf. rewrite E. discriminate.
Qed.

Lemma div_not_nan (a b : float) :
  is_nan a = false -> positive_real b = true -> is_nan (a / b)%float = false.
Proof.
  intros Ha Hb. destruct (positive_real_sf b Hb) as (m & e & E).
  apply is_nan_sf. rewrite div_spec, E.
  apply SFdiv_finite_not_nan. now apply is_nan_sf.
Qed.

End Rounding.

(* ================================================================== *)
(** * Running computations *)
(* ================================================================== *)

Lemma runs_ret {A} (a : A) : runs (ret a) (Normal a) [].
Proof. intros t. unfold ret. now rewrite app_nil_r. Qed.

Lemma runs_raise {A} (e : exn) : runs (@raise A e) (Raised e) [].
Proof. intros t. unfold raise. now rewrite app_nil_r. Qed.

Lemma runs_external {A} (ev : event) (answer : outcome A) :
  runs (external ev answer) answer [ev].
Proof. intros t. reflexivity. Qed.

Lemma runs_bind {A B} (m : Py A) (f : A -> Py B) a evs1 o evs2 :
  runs m (Normal a) evs1 -> runs (f a) o evs2 ->
  runs (bind m f) o (evs1 ++ evs2).
Proof.
  intros Hm Hf t. unfold bind. now rewrite Hm, Hf, app_assoc.
Qed.

Lemma runs_bind_raised {A B} (m : Py A) (f : A -> Py B) e evs :
  runs m (Raised e) evs -> runs (bind m f) (Raised e) evs.
Proof. intros Hm t. unfold bind. now rewrite Hm. Qed.

Lemma runs_try {A} (body : Py A) (handler : exn -> Py A) a evs :
  runs body (Normal a) evs -> runs (try_except body handler) (Normal a) evs.
Proof. intros Hb t. unfold try_except. now rewrite Hb. Qed.

Lemma runs_try_raised {A} (body : Py A) (handler : exn -> Py A)
    e evs1 o evs2 :
  runs body (Raised e) evs1 -> runs (handler e) o evs2 ->
  runs (try_except body handler) o (evs1 ++ evs2).
Proof.
  intros Hb Hh t. unfold try_except. now rewrite Hb, Hh, app_assoc.
Qed.

(** A computation has at most one run. *)
Lemma runs_unique {A} (m : Py A) o1 evs1 o2 evs2 :
  runs m o1 evs1 -> runs m o2 evs2 -> o1 = o2 /\ evs1 = evs2.
Proof.
  intros H1 H2. pose proof (H1 []) as E1. rewrite (H2 []) in E1.
  simpl in E1. now inversion E1.
Qed.

(* ================================================================== *)
(** * The dict and [min] *)
(* ================================================================== *)

Lemma dict_keys_setitem_fresh (d : dict) (k : string) (v : float) :
  ~ In k (dict_keys d) -> dict_setitem d k v = d ++ [(k, v)].
Proof.
  induction d as [|[k' v'] d IH]; simpl; intros H; [reflexivity|].
  destruct (String.eqb_spec k' k) as [->|Hne].
  - exfalso. auto.
  - rewrite IH; auto.
Qed.

Lemma dict_keys_setitem (d : dict) (k : string) (v : float) :
  dict_keys (dict_setitem d k v)
  = if existsb (String.eqb k) (dict_keys d) then dict_keys d
    else dict_keys d ++ [k].
Proof.
  induction d as [|[k' v'] d IH]; simpl; [reflexivity|].
  rewrite (String.eqb_sym k k').
  destruct (String.eqb k' k); simpl; [reflexivity|].
  rewrite IH. now destruct (existsb _ _).
Qed.

Lemma dict_setitem_NoDup (d : dict) (k : string) (v : float) :
  NoDup (dict_keys d) -> NoDup (dict_keys (dict_setitem d k v)).
Proof.
  intros H. rewrite dict_keys_setitem.
  destruct (existsb (String.eqb k) (dict_keys d)) eqn:E; [assumption|].
  apply NoDup_app; [assumption | repeat constructor; simpl; tauto |].
  intros x Hx [Ex|[]]. subst x.
  assert (existsb (String.eqb k) (dict_keys d) = true); [|congruence].
  apply existsb_exists. exists k. split; [assumption | apply String.eqb_refl].
Qed.

Lemma dict_setitem_nonempty (d : dict) (k : string) (v : float) :
  dict_setitem d k v <> [].
Proof.
  destruct d as [|[k' v'] d]; simpl; [discriminate|].
  destruct (String.eqb k' k); discriminate.
Qed.

(** In a dict every entry is found under its key. *)
Lemma dict_get_In (d : dict) (k : string) (v : float) :
  NoDup (dict_keys d) -> In (k, v) d -> dict_get d k = Some v.
Proof.
  induction d as [|[k' v'] d IH]; simpl; intros Hnd Hin; [contradiction|].
  inversion Hnd as [|? ? Hk' Hnd']; subst.
  destruct Hin as [E|Hin].
  - inversion E; subst. now rewrite String.eqb_refl.
  - destruct (String.eqb_spec k' k) as [->|Hne]; [|auto].
    exfalso. apply Hk'. change k with (fst (k, v)). now apply in_map.
Qed.

Lemma runs_min_loop (key : string -> option float) (rest : dict) :
  (forall k v, In (k, v) rest -> key k = Some v) ->
  forall best : string * float,
    runs (min_loop key (fst best) (Some (snd best)) (dict_keys rest))
         (Normal (fst (min_scan best rest))) [].
Proof.
  induction rest as [|[k v] rest IH]; intros Hkey best.
  - apply runs_ret.
  - cbn [dict_keys map min_loop fst min_scan snd].
    rewrite (Hkey k v) by (left; reflexivity).
    assert (IH' := fun b => IH (fun k' v' H => Hkey k' v' (or_intror H)) b).
    change [] with (@nil event ++ []).
    eapply runs_bind; [apply runs_ret|].
    destruct (v <? snd best)%float.
    + apply (IH' (k, v)).
    + apply IH'.
Qed.

(** Lines 53-54 on a non-empty dict: [min] settles on the entry
    [min_scan] finds, and the lookup returns that entry's value. *)
Lemma min_scan_In (rest : dict) (best : string * float) :
  In (min_scan best rest) (best :: rest).
Proof.
  revert best. induction rest as [|e rest IH]; intros best; simpl.
  - now left.
  - destruct (IH (if (snd e <? snd best)%float then e else best)) as [E|H].
    + rewrite <- E. destruct (snd e <? snd best)%float; auto.
    + auto.
Qed.

Lemma runs_py_min (e : string * float) (rest : dict) :
  NoDup (dict_keys (e :: rest)) ->
  runs (py_min (dict_keys (e :: rest)) (dict_get (e :: rest)))
       (Normal (fst (min_scan e rest))) [].
Proof.
  intros Hnd. cbn [dict_keys map py_min].
  rewrite (dict_get_In (e :: rest) (fst e) (snd e) Hnd)
    by (left; now destruct e).
  apply (runs_min_loop (dict_get (e :: rest)) rest).
  intros k v H. apply dict_get_In; [assumption | now right].
Qed.

Lemma runs_getitem_min (e : string * float) (rest : dict) :
  NoDup (dict_keys (e :: rest)) ->
  runs (dict_getitem (e :: rest) (fst (min_scan e rest)))
       (Normal (snd (min_scan e rest))) [].
Proof.
  intros Hnd. unfold dict_getitem.
  rewrite (dict_get_In (e :: rest) _ (snd (min_scan e rest)) Hnd).
  - apply runs_ret.
  - pose proof (min_scan_In rest e). now destruct (min_scan e rest).
Qed.

(** Where [min] stops: no earlier entry is smaller than or ties with the
    chosen one, and no later entry is smaller. *)
Lemma min_scan_split (rest : dict) (best : string * float) :
  exists l1 l2,
    best :: rest = l1 ++ min_scan best rest :: l2 /\
    (l1 = [] \/ (snd (min_scan best rest) <? snd best)%float = true) /\
    Forall (fun e => (snd e <? snd (min_scan best rest))%float = false /\
                     (snd e =? snd (min_scan best rest))%float = false) l1 /\
    Forall (fun e => (snd e <? snd (min_scan best rest))%float = false) l2.
Proof.
  revert best. induction rest as [|x rest IH]; intros best.
  - exists [], []. simpl. repeat split; auto.
  - cbn [min_scan].
    destruct (snd x <? snd best)%float eqn:Hlt.
    + destruct (IH x) as (l1 & l2 & Heq & Hhead & Hl1 & Hl2).
      set (m := min_scan x rest) in *.
      assert (Hm : (snd m <? snd best)%float = true).
      { destruct Hhead as [->|Hmx].
        - simpl in Heq. inversion Heq as [[Hx Hr]]. now rewrite <- Hx.
        - eapply ltb_trans; eassumption. }
      exists (best :: l1), l2. split; [simpl; now rewrite Heq|].
      split; [now right|]. split; [|assumption].
      constructor; [|assumption].
      split; [now apply ltb_asym | now apply ltb_neq].
    + destruct (IH best) as (l1 & l2 & Heq & Hhead & Hl1 & Hl2).
      set (m := min_scan best rest) in *.
      destruct l1 as [|b l1].
      * simpl in Heq. injection Heq as Hb Hr.
        exists [], (x :: l2).
        split; [simpl; f_equal; [exact Hb | f_equal; exact Hr]|].
        split; [now left|].
        split; [constructor|].
        constructor; [now rewrite <- Hb | assumption].
      * destruct Hhead as [Hnil|Hmb]; [discriminate|].
        simpl in Heq. injection Heq as Hb Hr. subst b.
        exists (best :: x :: l1), l2.
        split; [simpl; do 2 f_equal; exact Hr|]. split; [now right|].
        split; [|assumption].
        apply Forall_cons_iff in Hl1 as [Hbest Hl1'].
        constructor; [assumption|]. constructor; [|assumption].
        split.
        -- destruct (snd x <? snd m)%float eqn:E; [|reflexivity].
           now rewrite (ltb_trans _ _ _ E Hmb) in Hlt.
        -- destruct (snd x =? snd m)%float eqn:E; [|reflexivity].
           now rewrite (eqb_ltb_trans _ _ _ E Hmb) in Hlt.
Qed.

(** The chosen entry is minimal: no entry is strictly smaller. *)
Lemma min_scan_minimal (rest : dict) (best e : string * float) :
  In e (best :: rest) ->
  (snd e <? snd (min_scan best rest))%float = false.
Proof.
  destruct (min_scan_split rest best) as (l1 & l2 & Heq & _ & Hl1 & Hl2).
  rewrite Heq. intros Hin. apply in_app_or in Hin.
  rewrite Forall_forall in Hl1, Hl2.
  destruct Hin as [Hin|[<-|Hin]].
  - now apply Hl1.
  - apply ltb_irrefl.
  - now apply Hl2.
Qed.

Lemma leb_not_ltb (x y : float) :
  (x <=? y)%float = true -> (y <? x)%float = false.
Proof.
  rewrite leb_spec, ltb_spec. unfold SFleb, SFltb.
  destruct (SFcompare (Prim2SF x) (Prim2SF y)) as [c|] eqn:E;
    [|discriminate].
  rewrite (FloatOrder.sf_compare_opp _ _ _ E).
  destruct c; simpl; intros H; try discriminate; reflexivity.
Qed.

Lemma reactant_only_app (evs1 evs2 : list event) :
  reactant_only evs1 -> reactant_only evs2 -> reactant_only (evs1 ++ evs2).
Proof. intros H1 H2. apply Forall_app. now split. Qed.

Lemma dict_update_NoDup (es d : dict) :
  NoDup (dict_keys d) -> NoDup (dict_keys (dict_update d es)).
Proof.
  revert d. induction es as [|e es IH]; intros d H; simpl; [assumption|].
  apply IH. now apply dict_setitem_NoDup.
Qed.

Lemma dict_update_nonempty (es d : dict) :
  es <> [] -> dict_update d es <> [].
Proof.
  destruct es as [|e es]; [congruence|]. intros _. simpl.
  generalize (dict_setitem_nonempty d (fst e) (snd e)).
  generalize (dict_setitem d (fst e) (snd e)). clear d.
  induction es as [|e' es IH]; intros d Hd; simpl; [assumption|].
  apply IH. apply dict_setitem_nonempty.
Qed.

(** Distinct names are stored in iteration order. *)
Lemma dict_update_fresh (es d : dict) :
  NoDup (dict_keys d ++ dict_keys es) -> dict_update d es = d ++ es.
Proof.
  revert d. induction es as [|[k v] es IH]; intros d H; simpl.
  - now rewrite app_nil_r.
  - assert (Hk : ~ In k (dict_keys d)).
    { apply NoDup_remove_2 in H. intros Hin. apply H.
      apply in_or_app. now left. }
    rewrite (dict_keys_setitem_fresh d k v Hk).
    rewrite IH.
    + now rewrite <- app_assoc.
    + unfold dict_keys in *. rewrite map_app. simpl.
      rewrite <- app_assoc. exact H.
Qed.

Lemma dict_get_setitem_same (d : dict) (k : string) (v : float) :
  dict_get (dict_setitem d k v) k = Some v.
Proof.
  induction d as [|[k' v'] d IH]; simpl.
  - now rewrite String.eqb_refl.
  - destruct (String.eqb k' k) eqn:E; simpl; now rewrite E.
Qed.

(** ** The kinds of the failure records *)

Lemma prefix_empty (s : string) : prefix "" s = true.
Proof. now destruct s. Qed.

(** What follows a literal that is at least as long as the prefix does
    not matter. *)
Lemma prefix_app_literal (p q s : string) :
  String.length p <= String.length q -> prefix p (q ++ s) = prefix p q.
Proof.
  revert q. induction p as [|a p IH]; intros q Hlen.
  - now rewrite !prefix_empty.
  - destruct q as [|b q]; [simpl in Hlen; lia|].
    simpl. destruct (ascii_dec a b); [|reflexivity].
    apply IH. simpl in Hlen. lia.
Qed.

Ltac kind_of_literal :=
  unfold kind_of, missing_field, reactant_parse_failure, reactant_fault,
    product_parse_failure, product_fault;
  rewrite !prefix_app_literal by (simpl; lia);
  reflexivity.

Lemma kind_missing_field (name : string) :
  kind_of (missing_field name) = Some MissingField.
Proof. kind_of_literal. Qed.

Lemma kind_reactant_parse_failure (name s : string) :
  kind_of (reactant_parse_failure name s) = Some ParseFailure.
Proof. kind_of_literal. Qed.

Lemma kind_product_parse_failure (s : string) :
  kind_of (product_parse_failure s) = Some ParseFailure.
Proof. kind_of_literal. Qed.

Lemma kind_reactant_fault (name : string) (e : exn) :
  kind_of (reactant_fault name e) = Some UnexpectedFailure.
Proof. kind_of_literal. Qed.


(* ================================================================== *)
(** * The loop over the reactants *)
(* ================================================================== *)

Section Properties.

Variable Mol : Type.
Variable MolFromSmiles : string -> outcome (option Mol).
Variable CalcExactMolWt : Mol -> outcome float.

Local Abbreviation step := (reactant_step MolFromSmiles CalcExactMolWt).
Local Abbreviation loop := (reactant_loop MolFromSmiles CalcExactMolWt).
Local Abbreviation calc :=
  (calculate_theoretical_yield MolFromSmiles CalcExactMolWt).
Local Abbreviation moles := (normalized_moles MolFromSmiles CalcExactMolWt).

Ltac run_step :=
  intros ?t;
  unfold reactant_step, product_weight, try_except, bind,
    Chem_MolFromSmiles, Chem_CalcExactMolWt, external, py_truediv, ret, raise;
  repeat match goal with
    | H : _ = _ |- _ => rewrite H
    end;
  simpl; rewrite <- ?app_assoc; reflexivity.

(** ** One reactant *)

Lemma step_missing name data d :
  lacks_smiles_or_weight data = true ->
  runs (step name data d) (Normal (Returns (missing_field name))) [].
Proof.
  unfold lacks_smiles_or_weight, reactant_step. intros H t.
  destruct (smiles data) as [s|], (weight_g data) as [w|];
    try rewrite H; unfold ret; now rewrite app_nil_r.
Qed.

Lemma present_truthy data :
  lacks_smiles_or_weight data = false ->
  exists s w, smiles data = Some s /\ weight_g data = Some w /\
              str_truthy s = true /\ float_truthy w = true.
Proof.
  unfold lacks_smiles_or_weight.
  destruct (smiles data) as [s|], (weight_g data) as [w|];
    try discriminate.
  intros H. apply orb_false_iff in H. destruct H as [H1 H2].
  apply negb_false_iff in H1, H2. exists s, w. auto.
Qed.

Lemma step_unparsed name data d s w :
  smiles data = Some s -> weight_g data = Some w ->
  str_truthy s = true -> float_truthy w = true ->
  unresolvable MolFromSmiles s ->
  runs (step name data d)
       (Normal (Returns (reactant_parse_failure name s)))
       [MolFromSmilesCall (ReactantSite name) s].
Proof. unfold unresolvable. intros Hs Hw Ts Tw HM. run_step. Qed.

Lemma step_resolver_raises name data d s w e :
  smiles data = Some s -> weight_g data = Some w ->
  str_truthy s = true -> float_truthy w = true ->
  MolFromSmiles s = Raised e ->
  runs (step name data d)
       (Normal (Returns (reactant_fault name e)))
       [MolFromSmilesCall (ReactantSite name) s].
Proof. intros Hs Hw Ts Tw HM. run_step. Qed.

Lemma step_weight_raises name data d s w mol e :
  smiles data = Some s -> weight_g data = Some w ->
  str_truthy s = true -> float_truthy w = true ->
  MolFromSmiles s = Normal (Some mol) -> CalcExactMolWt mol = Raised e ->
  runs (step name data d)
       (Normal (Returns (reactant_fault name e)))
       [MolFromSmilesCall (ReactantSite name) s;
        CalcExactMolWtCall (ReactantSite name)].
Proof. intros Hs Hw Ts Tw HM HC. run_step. Qed.

Lemma step_zero_weight name data d s w mol mw :
  smiles data = Some s -> weight_g data = Some w ->
  str_truthy s = true -> float_truthy w = true ->
  MolFromSmiles s = Normal (Some mol) -> CalcExactMolWt mol = Normal mw ->
  (mw =? 0)%float = true ->
  runs (step name data d)
       (Normal (Returns (reactant_fault name
                           (ZeroDivisionError "float division by zero"))))
       [MolFromSmilesCall (ReactantSite name) s;
        CalcExactMolWtCall (ReactantSite name)].
Proof. intros Hs Hw Ts Tw HM HC Hz. run_step. Qed.

Lemma step_zero_ratio name data d s w mol mw :
  smiles data = Some s -> weight_g data = Some w ->
  str_truthy s = true -> float_truthy w = true ->
  MolFromSmiles s = Normal (Some mol) -> CalcExactMolWt mol = Normal mw ->
  (mw =? 0)%float = false -> (get_mole_ratio data =? 0)%float = true ->
  runs (step name data d)
       (Normal (Returns (reactant_fault name
                           (ZeroDivisionError "float division by zero"))))
       [MolFromSmilesCall (ReactantSite name) s;
        CalcExactMolWtCall (ReactantSite name)].
Proof. intros Hs Hw Ts Tw HM HC Hz Hr. run_step. Qed.

Lemma step_stores name data d s w mol mw :
  smiles data = Some s -> weight_g data = Some w ->
  str_truthy s = true -> float_truthy w = true ->
  MolFromSmiles s = Normal (Some mol) -> CalcExactMolWt mol = Normal mw ->
  (mw =? 0)%float = false -> (get_mole_ratio data =? 0)%float = false ->
  runs (step name data d)
       (Normal (Continues
                  (dict_setitem d name
                     ((w / mw) / get_mole_ratio data)%float)))
       [MolFromSmilesCall (ReactantSite name) s;
        CalcExactMolWtCall (ReactantSite name)].
Proof. intros Hs Hw Ts Tw HM HC Hz Hr. run_step. Qed.

(** A reactant with a normalized mole count is stored and the loop goes
    on; any other reactant makes the function return a failure record. *)
Lemma step_Some name data d v :
  moles data = Some v ->
  exists evs,
    runs (step name data d) (Normal (Continues (dict_setitem d name v))) evs
    /\ reactant_only evs.
Proof.
  unfold normalized_moles, exact_weight.
  destruct (smiles data) as [s|] eqn:Hs; [|discriminate].
  destruct (weight_g data) as [w|] eqn:Hw; [|discriminate].
  destruct (str_truthy s && float_truthy w) eqn:Ht; [|discriminate].
  apply andb_true_iff in Ht. destruct Ht as [Ts Tw].
  destruct (MolFromSmiles s) as [[mol|]|e] eqn:HM; try discriminate.
  destruct (CalcExactMolWt mol) as [mw|e] eqn:HC; try discriminate.
  destruct ((mw =? 0)%float || (get_mole_ratio data =? 0)%float) eqn:Hz;
    [discriminate|].
  apply orb_false_iff in Hz. destruct Hz as [Hz Hr].
  intros E. injection E as <-. eexists. split.
  - eapply step_stores; eassumption.
  - repeat constructor.
Qed.

Lemma step_None name data :
  moles data = None ->
  exists msg evs,
    (forall d, runs (step name data d) (Normal (Returns (Error msg))) evs)
    /\ reactant_only evs.
Proof.
  intros HN.
  destruct (lacks_smiles_or_weight data) eqn:Hl.
  { eexists _, []. split; [intros d; now apply step_missing | constructor]. }
  destruct (present_truthy data Hl) as (s & w & Hs & Hw & Ts & Tw).
  revert HN. unfold normalized_moles, exact_weight. rewrite Hs, Hw, Ts, Tw.
  cbn [andb].
  destruct (MolFromSmiles s) as [[mol|]|e] eqn:HM.
  - destruct (CalcExactMolWt mol) as [mw|e] eqn:HC.
    + destruct (mw =? 0)%float eqn:Hz.
      * intros _. eexists _, _. split;
          [intros d; eapply step_zero_weight; eassumption
          | repeat constructor].
      * destruct (get_mole_ratio data =? 0)%float eqn:Hr; [|discriminate].
        intros _. eexists _, _. split;
          [intros d; eapply step_zero_ratio; eassumption
          | repeat constructor].
    + intros _. eexists _, _. split;
        [intros d; eapply step_weight_raises; eassumption
        | repeat constructor].
  - intros _. eexists _, _. split;
      [intros d; eapply step_unparsed; eassumption | repeat constructor].
  - intros _. eexists _, _. split;
      [intros d; eapply step_resolver_raises; eassumption
      | repeat constructor].
Qed.

(** ** All reactants *)

Lemma loop_cons_continues name data items d d' evs1 o evs2 :
  runs (step name data d) (Normal (Continues d')) evs1 ->
  runs (loop items d') o evs2 ->
  runs (loop ((name, data) :: items) d) o (evs1 ++ evs2).
Proof.
  intros H1 H2. cbn [reactant_loop].
  eapply runs_bind; [exact H1 | exact H2].
Qed.

Lemma loop_cons_returns name data items d r evs :
  runs (step name data d) (Normal (Returns r)) evs ->
  runs (loop ((name, data) :: items) d) (Normal (Returns r)) evs.
Proof.
  intros H. cbn [reactant_loop]. rewrite <- (app_nil_r evs).
  eapply runs_bind; [exact H | apply runs_ret].
Qed.

(** Every reactant is processed: the loop ends with all counts stored. *)
Lemma loop_Some items es :
  all_moles MolFromSmiles CalcExactMolWt items = Some es ->
  forall d, exists evs,
    runs (loop items d) (Normal (Continues (dict_update d es))) evs
    /\ reactant_only evs.
Proof.
  revert es. induction items as [|[name data] items IH]; intros es H d.
  - injection H as <-. exists []. split; [apply runs_ret | constructor].
  - cbn [all_moles] in H.
    destruct (moles data) as [v|] eqn:Hv; [|discriminate].
    destruct (all_moles _ _ items) as [es'|] eqn:Hes; [|discriminate].
    injection H as <-.
    destruct (step_Some name data d v Hv) as (evs1 & R1 & O1).
    destruct (IH es' eq_refl (dict_setitem d name v)) as (evs2 & R2 & O2).
    exists (evs1 ++ evs2). split.
    + eapply loop_cons_continues; eassumption.
    + now apply reactant_only_app.
Qed.

(** The loop stops at the first reactant that is not processed, with the
    record that reactant's step returns. *)
Lemma loop_stops pre name data post es r evs1 :
  all_moles MolFromSmiles CalcExactMolWt pre = Some es ->
  (forall d, runs (step name data d) (Normal (Returns r)) evs1) ->
  forall d, exists evs0,
    runs (loop (pre ++ (name, data) :: post) d) (Normal (Returns r))
         (evs0 ++ evs1)
    /\ reactant_only evs0.
Proof.
  intros Hpre Hstep. revert es Hpre.
  induction pre as [|[n dt] pre IH]; intros es Hpre d.
  - exists []. split; [|constructor]. simpl. now apply loop_cons_returns.
  - cbn [all_moles] in Hpre.
    destruct (moles dt) as [v|] eqn:Hv; [|discriminate].
    destruct (all_moles _ _ pre) as [es'|] eqn:Hes; [|discriminate].
    destruct (step_Some n dt d v Hv) as (evs1' & R1 & O1).
    destruct (IH es' eq_refl (dict_setitem d n v)) as (evs0 & R2 & O2).
    exists (evs1' ++ evs0). split.
    + rewrite <- app_assoc. simpl.
      eapply loop_cons_continues; eassumption.
    + now apply reactant_only_app.
Qed.

Lemma all_moles_None items :
  all_moles MolFromSmiles CalcExactMolWt items = None ->
  exists pre name data post es,
    items = pre ++ (name, data) :: post /\
    all_moles MolFromSmiles CalcExactMolWt pre = Some es /\
    moles data = None.
Proof.
  induction items as [|[name data] items IH]; [discriminate|].
  cbn [all_moles]. destruct (moles data) as [v|] eqn:Hv.
  - destruct (all_moles _ _ items) as [es|] eqn:Hes; [discriminate|].
    intros _. destruct (IH eq_refl) as (pre & n & dt & post & es & E & P & N).
    exists ((name, data) :: pre), n, dt, post, ((name, v) :: es).
    split; [now rewrite E|]. split; [|assumption].
    cbn [all_moles]. now rewrite Hv, P.
  - intros _. exists [], name, data, items, []. auto.
Qed.

Lemma loop_None items :
  all_moles MolFromSmiles CalcExactMolWt items = None ->
  forall d, exists msg evs,
    runs (loop items d) (Normal (Returns (Error msg))) evs
    /\ reactant_only evs.
Proof.
  intros H d.
  destruct (all_moles_None items H) as (pre & n & dt & post & es & E & P & N).
  subst items.
  destruct (step_None n dt N) as (msg & evs1 & Hall & O1).
  destruct (loop_stops pre n dt post es _ evs1 P Hall d) as (evs0 & R & O).
  exists msg, (evs0 ++ evs1). split; [assumption|].
  now apply reactant_only_app.
Qed.

(** ** The product *)

Lemma product_resolved ps pw :
  exact_weight MolFromSmiles CalcExactMolWt ps = Some pw ->
  runs (product_weight MolFromSmiles CalcExactMolWt ps) (Normal (inr pw))
       [MolFromSmilesCall ProductSite ps; CalcExactMolWtCall ProductSite].
Proof.
  unfold exact_weight.
  destruct (MolFromSmiles ps) as [[mol|]|e] eqn:HM; try discriminate.
  destruct (CalcExactMolWt mol) as [w|e] eqn:HC; try discriminate.
  intros E. injection E as <-. run_step.
Qed.

Lemma product_unparsed ps :
  unresolvable MolFromSmiles ps ->
  runs (product_weight MolFromSmiles CalcExactMolWt ps)
       (Normal (inl (product_parse_failure ps)))
       [MolFromSmilesCall ProductSite ps].
Proof. unfold unresolvable. intros HM. run_step. Qed.

Lemma product_unresolved ps :
  exact_weight MolFromSmiles CalcExactMolWt ps = None ->
  exists msg evs,
    runs (product_weight MolFromSmiles CalcExactMolWt ps)
         (Normal (inl (Error msg))) evs.
Proof.
  unfold exact_weight.
  destruct (MolFromSmiles ps) as [[mol|]|e] eqn:HM.
  - destruct (CalcExactMolWt mol) as [w|e] eqn:HC; [discriminate|].
    intros _. eexists _, _. run_step.
  - intros _. eexists _, _. now apply product_unparsed.
  - intros _. eexists _, _. run_step.
Qed.

(** ** The whole function, after the loop *)

Lemma calc_returns reactants ps pr r evs :
  runs (loop reactants []) (Normal (Returns r)) evs ->
  runs (calc reactants ps pr) (Normal r) evs.
Proof.
  intros H. unfold calculate_theoretical_yield.
  rewrite <- (app_nil_r evs).
  eapply runs_bind; [exact H | apply runs_ret].
Qed.

Lemma calc_no_reactants reactants ps pr evs :
  runs (loop reactants []) (Normal (Continues [])) evs ->
  runs (calc reactants ps pr) (Normal no_reactants) evs.
Proof.
  intros H. unfold calculate_theoretical_yield.
  rewrite <- (app_nil_r evs).
  eapply runs_bind; [exact H | apply runs_ret].
Qed.

Lemma calc_continues reactants ps pr e rest evs0 p evsP :
  runs (loop reactants []) (Normal (Continues (e :: rest))) evs0 ->
  NoDup (dict_keys (e :: rest)) ->
  runs (product_weight MolFromSmiles CalcExactMolWt ps) (Normal p) evsP ->
  runs (calc reactants ps pr)
       (Normal match p with
               | inl r => r
               | inr pw =>
                   Success ((snd (min_scan e rest) * pr) * pw)%float
                           (fst (min_scan e rest))
               end)
       (evs0 ++ evsP).
Proof.
  intros HL Hnd HP. unfold calculate_theoretical_yield.
  eapply runs_bind; [exact HL|]. cbv beta iota.
  replace evsP with ([] ++ ([] ++ (evsP ++ []))) by (simpl; apply app_nil_r).
  eapply runs_bind; [now apply runs_py_min|].
  eapply runs_bind; [now apply runs_getitem_min|].
  eapply runs_bind; [exact HP|].
  destruct p; apply runs_ret.
Qed.

(** Some reactant is not processed: the function returns a failure
    record and no call is made for the product. *)
Lemma calc_None reactants ps pr :
  all_moles MolFromSmiles CalcExactMolWt reactants = None ->
  exists msg evs,
    runs (calc reactants ps pr) (Normal (Error msg)) evs /\ reactant_only evs.
Proof.
  intros H. destruct (loop_None reactants H []) as (msg & evs & R & O).
  exists msg, evs. split; [now apply calc_returns | assumption].
Qed.

(** Every reactant is processed, with distinct names: the function
    goes on to the product with the entry [min] settles on. *)
Lemma calc_Some reactants ps pr e es p evsP :
  all_moles MolFromSmiles CalcExactMolWt reactants = Some (e :: es) ->
  NoDup (dict_keys (e :: es)) ->
  runs (product_weight MolFromSmiles CalcExactMolWt ps) (Normal p) evsP ->
  exists evs0,
    runs (calc reactants ps pr)
         (Normal match p with
                 | inl r => r
                 | inr pw =>
                     Success ((snd (min_scan e es) * pr) * pw)%float
                             (fst (min_scan e es))
                 end)
         (evs0 ++ evsP)
    /\ reactant_only evs0.
Proof.
  intros H Hnd HP. destruct (loop_Some reactants _ H []) as (evs0 & R & O).
  rewrite (dict_update_fresh (e :: es) []) in R by exact Hnd.
  exists evs0. split; [|assumption].
  eapply calc_continues; eassumption.
Qed.

Lemma all_moles_keys items es :
  all_moles MolFromSmiles CalcExactMolWt items = Some es ->
  dict_keys es = map fst items.
Proof.
  revert es. induction items as [|[name data] items IH]; intros es H.
  - now injection H as <-.
  - cbn [all_moles] in H.
    destruct (moles data) as [v|]; [|discriminate].
    destruct (all_moles _ _ items) as [es'|]; [|discriminate].
    injection H as <-. simpl. f_equal. now apply IH.
Qed.

Lemma all_moles_In items es name v :
  all_moles MolFromSmiles CalcExactMolWt items = Some es ->
  In (name, v) es ->
  exists data, In (name, data) items /\ moles data = Some v.
Proof.
  revert es. induction items as [|[n dt] items IH]; intros es H Hin.
  - injection H as <-. destruct Hin.
  - cbn [all_moles] in H.
    destruct (moles dt) as [v'|] eqn:Hv; [|discriminate].
    destruct (all_moles _ _ items) as [es'|]; [|discriminate].
    injection H as <-. destruct Hin as [E|Hin].
    + injection E as <- <-. exists dt. split; [now left | assumption].
    + destruct (IH es' eq_refl Hin) as (data & Hd & Hm).
      exists data. split; [now right | assumption].
Qed.

(** ** Reactants that are not processed *)

Lemma all_moles_of items es name data :
  all_moles MolFromSmiles CalcExactMolWt items = Some es ->
  In (name, data) items ->
  exists v, moles data = Some v /\ In (name, v) es.
Proof.
  revert es. induction items as [|[n dt] items IH]; intros es H Hin.
  - destruct Hin.
  - cbn [all_moles] in H.
    destruct (moles dt) as [v'|] eqn:Hv; [|discriminate].
    destruct (all_moles _ _ items) as [es'|]; [|discriminate].
    injection H as <-. destruct Hin as [E|Hin].
    + injection E as -> ->. exists v'. split; [assumption | now left].
    + destruct (IH es' eq_refl Hin) as (v & Hm & Hi).
      exists v. split; [assumption | now right].
Qed.

Lemma all_moles_In_None items name data :
  In (name, data) items -> moles data = None ->
  all_moles MolFromSmiles CalcExactMolWt items = None.
Proof.
  induction items as [|[n dt] items IH]; intros Hin HN; [destruct Hin|].
  cbn [all_moles]. destruct Hin as [E|Hin].
  - injection E as -> ->. now rewrite HN.
  - rewrite (IH Hin HN). now destruct (moles dt).
Qed.

Lemma moles_lacking data :
  lacks_smiles_or_weight data = true -> moles data = None.
Proof.
  unfold lacks_smiles_or_weight, normalized_moles.
  destruct (smiles data) as [s|], (weight_g data) as [w|]; try reflexivity.
  destruct (str_truthy s), (float_truthy w); simpl;
    intros; try discriminate; reflexivity.
Qed.

Lemma moles_unresolvable data s :
  smiles data = Some s -> unresolvable MolFromSmiles s -> moles data = None.
Proof.
  unfold unresolvable, normalized_moles, exact_weight. intros -> ->.
  destruct (weight_g data) as [w|]; [|reflexivity].
  now destruct (str_truthy s && float_truthy w).
Qed.

Lemma moles_zero_weight data s mol mw :
  smiles data = Some s ->
  MolFromSmiles s = Normal (Some mol) -> CalcExactMolWt mol = Normal mw ->
  (mw =? 0)%float = true -> moles data = None.
Proof.
  unfold normalized_moles, exact_weight. intros -> -> -> ->.
  destruct (weight_g data) as [w|]; [|reflexivity].
  now destruct (str_truthy s && float_truthy w).
Qed.

(** ** Well-formed reactants *)

Lemma well_formed_moles data :
  well_formed MolFromSmiles CalcExactMolWt data = true ->
  exists s w mw,
    smiles data = Some s /\ weight_g data = Some w /\
    exact_weight MolFromSmiles CalcExactMolWt s = Some mw /\
    moles data = Some ((w / mw) / get_mole_ratio data)%float /\
    is_nan ((w / mw) / get_mole_ratio data)%float = false.
Proof.
  unfold well_formed, normalized_moles.
  destruct (smiles data) as [s|]; [|discriminate].
  destruct (weight_g data) as [w|]; [|discriminate].
  destruct (exact_weight _ _ s) as [mw|] eqn:Hew;
    [|rewrite andb_false_r; discriminate].
  intros H. repeat (apply andb_true_iff in H; destruct H as [H ?]).
  exists s, w, mw. repeat split; try reflexivity; try assumption.
  - rewrite H. unfold float_truthy.
    rewrite (positive_real_nonzero w), (positive_real_nonzero mw),
      (positive_real_nonzero (get_mole_ratio data)) by assumption.
    reflexivity.
  - apply div_not_nan; [|assumption].
    apply div_not_nan; [|assumption].
    now apply positive_real_not_nan.
Qed.

Lemma well_formed_all items :
  forallb (fun it => well_formed MolFromSmiles CalcExactMolWt (snd it)) items
    = true ->
  exists es,
    all_moles MolFromSmiles CalcExactMolWt items = Some es /\
    Forall (fun e => is_nan (snd e) = false) es.
Proof.
  induction items as [|[name data] items IH]; simpl; intros H.
  - exists []. split; [reflexivity | constructor].
  - apply andb_true_iff in H. destruct H as [Hd Hi].
    destruct (well_formed_moles data Hd) as (s & w & mw & _ & _ & _ & Hm & Hn).
    destruct (IH Hi) as (es & Hes & Hnan).
    rewrite Hm, Hes. eexists. split; [reflexivity|].
    constructor; assumption.
Qed.

(** ** Replacing one reactant by one that behaves alike *)

Lemma loop_ext pre name data data' post :
  (forall d t, step name data d t = step name data' d t) ->
  forall d t,
    loop (pre ++ (name, data) :: post) d t
    = loop (pre ++ (name, data') :: post) d t.
Proof.
  intros Hstep. induction pre as [|[n dt] pre IH]; intros d t.
  - cbn [app reactant_loop]. unfold bind. now rewrite Hstep.
  - cbn [app reactant_loop]. unfold bind.
    destruct (step n dt d t) as [[[r|d']|e] t']; try reflexivity.
    apply IH.
Qed.

Lemma step_blank name data d t :
  step name data d t = step name (blank data) d t.
Proof.
  unfold reactant_step, blank, get_mole_ratio. cbn [smiles weight_g mole_ratio].
  destruct (smiles data) as [s|]; [|reflexivity].
  destruct (str_truthy s) eqn:Ts.
  - destruct (weight_g data) as [w|]; [|reflexivity].
    destruct (float_truthy w) eqn:Tw; [|reflexivity].
    now rewrite Ts, Tw.
  - now destruct (weight_g data).
Qed.

(** Whatever the input, the function returns a record. *)
Lemma calc_runs reactants ps pr :
  exists r evs, runs (calc reactants ps pr) (Normal r) evs.
Proof.
  destruct (all_moles MolFromSmiles CalcExactMolWt reactants) as [es|] eqn:H.
  - destruct (loop_Some reactants es H []) as (evs0 & R & _).
    assert (Hnd : NoDup (dict_keys (dict_update [] es)))
      by (apply dict_update_NoDup; constructor).
    set (d := dict_update [] es) in *. clearbody d.
    destruct d as [|e rest].
    + eexists _, _. apply calc_no_reactants. exact R.
    + destruct (exact_weight MolFromSmiles CalcExactMolWt ps) as [pw|] eqn:HP.
      * eexists _, _.
        eapply calc_continues; [exact R | exact Hnd |].
        apply product_resolved. exact HP.
      * destruct (product_unresolved ps HP) as (msg & evsP & RP).
        eexists _, _. eapply calc_continues; eassumption.
  - destruct (calc_None reactants ps pr H) as (msg & evs & R & _). eauto.
Qed.

(* ================================================================== *)
(** * The claims *)
(* ================================================================== *)

(** C4.  For the empty reactant mapping, whatever the product SMILES and
    the product mole ratio, the function returns the failure record
    "No valid reactants provided." (a NoReactants-kind failure); it raises
    nothing and calls the resolver not even once. *)
Theorem empty_mapping_no_reactants ps pr :
  runs (calculate_theoretical_yield MolFromSmiles CalcExactMolWt [] ps pr)
       (Normal (Error "No valid reactants provided.")) []
  /\ kind_of (Error "No valid reactants provided.") = Some NoReactants.
Proof.
  split; [|reflexivity].
  apply calc_no_reactants. cbn [reactant_loop]. apply runs_ret.
Qed.





(** C2.  For a reactant whose SMILES resolves to a structure (of non-zero
    weight), with its mass present and a non-zero mole ratio, the loop body
    stores under the reactant's name the normalized mole count
    [(mass / exact weight) / mole ratio] and goes on; the ratio is the
    [mole_ratio] field when present and 1.0 when absent, in which case the
    stored value is [mass / exact weight]. *)
Theorem normalized_mole_count name data d s w mol mw :
  smiles data = Some s -> weight_g data = Some w ->
  str_truthy s = true -> float_truthy w = true ->
  MolFromSmiles s = Normal (Some mol) -> CalcExactMolWt mol = Normal mw ->
  (mw =? 0)%float = false -> (get_mole_ratio data =? 0)%float = false ->
  exists v evs,
    runs (reactant_step MolFromSmiles CalcExactMolWt name data d)
         (Normal (Continues (dict_setitem d name v))) evs /\
    dict_get (dict_setitem d name v) name = Some v /\
    v = ((w / mw) / match mole_ratio data with
                    | Some r => r
                    | None => 1.0
                    end)%float /\
    (mole_ratio data = None -> v = (w / mw)%float).
Proof.
  intros Hs Hw Ts Tw HM HC Hz Hr.
  exists ((w / mw) / get_mole_ratio data)%float. eexists.
  split; [eapply step_stores; eassumption|].
  split; [apply dict_get_setitem_same|].
  split; [reflexivity|].
  intros HN. unfold get_mole_ratio. rewrite HN. apply div_one_r.
Qed.

(** C1.  For a non-empty mapping of distinct names to well-formed
    reactants (non-empty resolvable SMILES of positive weight, positive
    mass, positive mole ratio) and a product SMILES that resolves to
    weight [pw], the function returns the success record whose yield is
    [(v * product ratio) * pw], where [v] is
    [(mass / molecular weight) / mole ratio] for the reported reactant,
    the ratio being the reactant's [mole_ratio] field (1.0 when the key is
    absent), and no reactant of the mapping has a smaller value of
    [(mass / molecular weight) / mole ratio].  With a single reactant
    whose [mole_ratio] field is 1.0 and a product mole ratio of 1.0 the
    yield is [(mass / reactant weight) * pw]. *)
Theorem theoretical_yield_formula reactants ps pr pw :
  reactants <> [] ->
  NoDup (map fst reactants) ->
  forallb (fun it => well_formed MolFromSmiles CalcExactMolWt (snd it))
    reactants = true ->
  exact_weight MolFromSmiles CalcExactMolWt ps = Some pw ->
  (exists name data w mw v evs,
     In (name, data) reactants /\
     weight_g data = Some w /\
     molecular_weight MolFromSmiles CalcExactMolWt data = Some mw /\
     v = ((w / mw) / match mole_ratio data with
                     | Some r => r
                     | None => 1.0
                     end)%float /\
     (forall name' data',
        In (name', data') reactants ->
        exists w' mw',
          weight_g data' = Some w' /\
          molecular_weight MolFromSmiles CalcExactMolWt data' = Some mw' /\
          (v <=? (w' / mw') / match mole_ratio data' with
                              | Some r => r
                              | None => 1.0
                              end)%float = true) /\
     runs (calculate_theoretical_yield MolFromSmiles CalcExactMolWt
             reactants ps pr)
          (Normal (Success ((v * pr) * pw)%float name)) evs)
  /\ (forall name data,
        reactants = [(name, data)] ->
        mole_ratio data = Some 1.0%float -> pr = 1.0%float ->
        exists w mw evs,
          weight_g data = Some w /\
          molecular_weight MolFromSmiles CalcExactMolWt data = Some mw /\
          runs (calculate_theoretical_yield MolFromSmiles CalcExactMolWt
                  reactants ps pr)
               (Normal (Success ((w / mw) * pw)%float name)) evs).
Proof.
  intros Hne Hnd Hwf HP.
  destruct (well_formed_all reactants Hwf) as (es & Hes & Hnan).
  pose proof (all_moles_keys reactants es Hes) as Hkeys.
  destruct es as [|e es'].
  { destruct reactants; [congruence | discriminate]. }
  assert (Hnd' : NoDup (dict_keys (e :: es'))) by now rewrite Hkeys.
  destruct (calc_Some reactants ps pr e es' (inr pw) _ Hes Hnd'
              (product_resolved ps pw HP)) as (evs0 & R & _).
  assert (Hfields : forall name data,
             In (name, data) reactants ->
             exists w mw,
               weight_g data = Some w /\
               molecular_weight MolFromSmiles CalcExactMolWt data = Some mw /\
               moles data
               = Some ((w / mw) / match mole_ratio data with
                                  | Some r => r
                                  | None => 1.0
                                  end)%float).
  { intros name data Hin. rewrite forallb_forall in Hwf.
    specialize (Hwf _ Hin). cbn [snd] in Hwf.
    destruct (well_formed_moles data Hwf)
      as (s & w & mw & Hs & Hw & Hmw & Hm & _).
    exists w, mw. split; [assumption|].
    split; [unfold molecular_weight; now rewrite Hs|].
    exact Hm. }
  split.
  - pose proof (min_scan_In es' e) as Hin.
    set (m := min_scan e es') in *.
    destruct (all_moles_In reactants (e :: es') (fst m) (snd m) Hes)
      as (data & Hdata & Hv).
    { now rewrite <- surjective_pairing. }
    destruct (Hfields _ _ Hdata) as (w & mw & Hw & Hmw & Hm).
    exists (fst m), data, w, mw, (snd m). eexists.
    split; [exact Hdata|]. split; [exact Hw|]. split; [exact Hmw|].
    split; [congruence|]. split; [|exact R].
    intros name' data' Hin'.
    destruct (Hfields _ _ Hin') as (w' & mw' & Hw' & Hmw' & Hm').
    destruct (all_moles_of reactants (e :: es') name' data' Hes Hin')
      as (v' & Hv' & Hi').
    exists w', mw'. split; [exact Hw'|]. split; [exact Hmw'|].
    rewrite Hm' in Hv'. injection Hv' as Hv'. rewrite Hv'.
    rewrite Forall_forall in Hnan.
    apply not_ltb_leb.
    + now apply Hnan.
    + apply (Hnan _ Hi').
    + apply (min_scan_minimal es' e _ Hi').
  - intros name data -> Hratio ->.
    destruct (Hfields name data (or_introl eq_refl))
      as (w & mw & Hw & Hmw & Hm).
    cbn [all_moles] in Hes. rewrite Hm, Hratio in Hes.
    injection Hes as <- <-.
    exists w, mw. eexists. split; [assumption|]. split; [assumption|].
    cbn [min_scan fst snd] in R.
    rewrite div_one_r, mul_one_r in R. exact R.
Qed.

(** C3.  For a non-empty mapping of distinct names to well-formed
    reactants, with a product that resolves, the reported limiting
    reactant attains the minimum normalized mole count: every reactant
    before it in iteration order has a strictly greater count (so among
    tied reactants the first is reported), and every reactant after it a
    count that is greater or equal.  A reactant [B] with a count strictly
    above that of some reactant [A] is never reported, whatever its mass;
    of two reactants, the one with the strictly smaller count is. *)
Theorem limiting_reactant_minimum reactants ps pr pw es :
  reactants <> [] ->
  NoDup (map fst reactants) ->
  forallb (fun it => well_formed MolFromSmiles CalcExactMolWt (snd it))
    reactants = true ->
  exact_weight MolFromSmiles CalcExactMolWt ps = Some pw ->
  all_moles MolFromSmiles CalcExactMolWt reactants = Some es ->
  exists l1 name v l2 evs,
    es = l1 ++ (name, v) :: l2 /\
    runs (calculate_theoretical_yield MolFromSmiles CalcExactMolWt
            reactants ps pr)
         (Normal (Success ((v * pr) * pw)%float name)) evs /\
    Forall (fun e => (v <? snd e)%float = true) l1 /\
    Forall (fun e => (v <=? snd e)%float = true) l2 /\
    (forall A vA B vB,
       In (A, vA) es -> In (B, vB) es -> (vA <? vB)%float = true ->
       name <> B) /\
    (forall A vA B vB,
       es = [(A, vA); (B, vB)] \/ es = [(B, vB); (A, vA)] ->
       (vA <? vB)%float = true -> name = A).
Proof.
  intros Hne Hnd Hwf HP Hes.
  destruct (well_formed_all reactants Hwf) as (es0 & Hes0 & Hnan).
  rewrite Hes in Hes0. injection Hes0 as <-.
  pose proof (all_moles_keys reactants es Hes) as Hkeys.
  destruct es as [|e es'].
  { destruct reactants; [congruence | discriminate]. }
  assert (Hnd' : NoDup (dict_keys (e :: es'))) by now rewrite Hkeys.
  destruct (calc_Some reactants ps pr e es' (inr pw) _ Hes Hnd'
              (product_resolved ps pw HP)) as (evs0 & R & _).
  destruct (min_scan_split es' e) as (l1 & l2 & Heq & _ & Hl1 & Hl2).
  pose proof (min_scan_In es' e) as Hin.
  set (m := min_scan e es') in *.
  assert (Hm : is_nan (snd m) = false).
  { rewrite Forall_forall in Hnan. now apply Hnan. }
  assert (H1 : Forall (fun x => (snd m <? snd x)%float = true) l1).
  { rewrite Forall_forall in *. intros x Hx.
    destruct (Hl1 x Hx) as [Hlt Hneq].
    apply not_ltb_not_eqb_ltb; try assumption.
    apply Hnan. rewrite Heq. apply in_or_app. now left. }
  assert (H2 : Forall (fun x => (snd m <=? snd x)%float = true) l2).
  { rewrite Forall_forall in *. intros x Hx.
    apply not_ltb_leb; [assumption | | now apply Hl2].
    apply Hnan. rewrite Heq. apply in_or_app. right. now right. }
  assert (Hnot : forall A vA B vB,
             In (A, vA) (e :: es') -> In (B, vB) (e :: es') ->
             (vA <? vB)%float = true -> fst m <> B).
  { intros A vA B vB HA HB Hlt E.
    assert (EvB : snd m = vB).
    { pose proof (dict_get_In _ _ _ Hnd' HB) as G1.
      assert (G2 : dict_get (e :: es') B = Some (snd m)).
      { apply dict_get_In; [assumption|]. rewrite <- E.
        now rewrite <- surjective_pairing. }
      congruence. }
    rewrite Heq in HA. apply in_app_or in HA.
    rewrite Forall_forall in H1, H2.
    destruct HA as [HA|[HA|HA]].
    - specialize (H1 _ HA). cbn [snd] in H1. rewrite EvB in H1.
      now rewrite (ltb_asym _ _ Hlt) in H1.
    - rewrite HA in EvB. cbn [snd] in EvB. subst vB.
      now rewrite ltb_irrefl in Hlt.
    - specialize (H2 _ HA). cbn [snd] in H2. rewrite EvB in H2.
      now rewrite (leb_not_ltb _ _ H2) in Hlt. }
  exists l1, (fst m), (snd m), l2. eexists.
  split; [now rewrite <- surjective_pairing|].
  split; [exact R|]. split; [exact H1|]. split; [exact H2|].
  split; [exact Hnot|].
  intros A vA B vB Hcase Hlt.
  assert (HA : In (A, vA) (e :: es'))
    by (destruct Hcase as [-> | ->]; simpl; auto).
  assert (HB : In (B, vB) (e :: es'))
    by (destruct Hcase as [-> | ->]; simpl; auto).
  pose proof (Hnot A vA B vB HA HB Hlt) as HnB.
  destruct Hcase as [E|E]; rewrite E in Hin;
    destruct Hin as [Hm'|[Hm'|[]]]; rewrite <- Hm' in *; cbn [fst] in *;
    congruence.
Qed.

(** C5, as amended.  When the SMILES of some reactant, or of the product,
    does not resolve, the function returns a failure record and never a
    success: no reactant is skipped.  The record is the ParseFailure one
    for a reactant when that reactant is the first the loop does not
    process and its SMILES and mass are present and truthy; it is the
    ParseFailure one for the product when the mapping is non-empty and
    every reactant is processed. *)
Theorem unresolved_smiles_fails reactants ps pr :
  (exists name data s,
     In (name, data) reactants /\ smiles data = Some s /\
     unresolvable MolFromSmiles s)
  \/ unresolvable MolFromSmiles ps ->
  (exists msg evs,
     runs (calculate_theoretical_yield MolFromSmiles CalcExactMolWt
             reactants ps pr) (Normal (Error msg)) evs)
  /\ (forall pre name data post es s,
        reactants = pre ++ (name, data) :: post ->
        all_moles MolFromSmiles CalcExactMolWt pre = Some es ->
        lacks_smiles_or_weight data = false ->
        smiles data = Some s -> unresolvable MolFromSmiles s ->
        kind_of (reactant_parse_failure name s) = Some ParseFailure /\
        exists evs,
          runs (calculate_theoretical_yield MolFromSmiles CalcExactMolWt
                  reactants ps pr)
               (Normal (reactant_parse_failure name s)) evs)
  /\ (forall es,
        reactants <> [] ->
        all_moles MolFromSmiles CalcExactMolWt reactants = Some es ->
        unresolvable MolFromSmiles ps ->
        kind_of (product_parse_failure ps) = Some ParseFailure /\
        exists evs,
          runs (calculate_theoretical_yield MolFromSmiles CalcExactMolWt
                  reactants ps pr)
               (Normal (product_parse_failure ps)) evs).
Proof.
  intros H. split; [|split].
  - destruct (all_moles MolFromSmiles CalcExactMolWt reactants)
      as [es|] eqn:Hes.
    + destruct H as [(name & data & s & Hin & Hs & Hu)|Hu].
      { rewrite (all_moles_In_None reactants name data Hin
                   (moles_unresolvable data s Hs Hu)) in Hes.
        discriminate. }
      destruct (loop_Some reactants es Hes []) as (evs0 & R & _).
      assert (Hnd : NoDup (dict_keys (dict_update [] es)))
        by (apply dict_update_NoDup; constructor).
      set (d := dict_update [] es) in *. clearbody d.
      destruct d as [|e rest].
      * eexists _, _. apply calc_no_reactants. exact R.
      * pose proof (calc_continues reactants ps pr e rest evs0 _ _ R Hnd
                      (product_unparsed ps Hu)) as C.
        eexists _, _. exact C.
    + destruct (calc_None reactants ps pr Hes) as (msg & evs & R & _).
      eauto.
  - intros pre name data post es s -> Hpre Hl Hs Hu.
    split; [apply kind_reactant_parse_failure|].
    destruct (present_truthy data Hl) as (s' & w & Hs' & Hw & Ts & Tw).
    rewrite Hs in Hs'. injection Hs' as <-.
    destruct (loop_stops pre name data post es
                (reactant_parse_failure name s)
                [MolFromSmilesCall (ReactantSite name) s] Hpre)
      with (d := @nil (string * float)) as (evs0 & R & _).
    + intros d. eapply step_unparsed; eassumption.
    + eexists. apply calc_returns. exact R.
  - intros es Hne Hes Hu. split; [apply kind_product_parse_failure|].
    destruct (loop_Some reactants es Hes []) as (evs0 & R & _).
    assert (Hnd : NoDup (dict_keys (dict_update [] es)))
      by (apply dict_update_NoDup; constructor).
    assert (Hd : dict_update [] es <> []).
    { apply dict_update_nonempty. intros ->.
      destruct reactants as [|[n dt] items]; [congruence|].
      cbn [all_moles] in Hes.
      destruct (moles dt); [|discriminate].
      destruct (all_moles _ _ items); discriminate. }
    set (d := dict_update [] es) in *. clearbody d.
    destruct d as [|e rest]; [congruence|].
    pose proof (calc_continues reactants ps pr e rest evs0 _ _ R Hnd
                  (product_unparsed ps Hu)) as C.
    eexists. exact C.
Qed.

(** C6, as amended.  When the SMILES or the mass of some reactant is
    absent, the function returns a failure record and makes no call for
    the product: the product SMILES is never resolved.  The record is the
    MissingField one naming that reactant when every reactant before it
    in iteration order is processed. *)
Theorem missing_field_fails reactants ps pr name data :
  In (name, data) reactants ->
  smiles data = None \/ weight_g data = None ->
  (exists msg evs,
     runs (calculate_theoretical_yield MolFromSmiles CalcExactMolWt
             reactants ps pr) (Normal (Error msg)) evs
     /\ reactant_only evs)
  /\ (forall pre post es,
        reactants = pre ++ (name, data) :: post ->
        all_moles MolFromSmiles CalcExactMolWt pre = Some es ->
        kind_of (missing_field name) = Some MissingField /\
        exists evs,
          runs (calculate_theoretical_yield MolFromSmiles CalcExactMolWt
                  reactants ps pr) (Normal (missing_field name)) evs
          /\ reactant_only evs).
Proof.
  intros Hin Habs.
  assert (Hl : lacks_smiles_or_weight data = true).
  { unfold lacks_smiles_or_weight. destruct Habs as [-> | ->];
      [reflexivity | now destruct (smiles data)]. }
  split.
  - apply calc_None.
    eapply all_moles_In_None; [exact Hin | now apply moles_lacking].
  - intros pre post es -> Hpre. split; [apply kind_missing_field|].
    destruct (loop_stops pre name data post es (missing_field name) [] Hpre)
      with (d := @nil (string * float)) as (evs0 & R & O).
    + intros d. now apply step_missing.
    + exists (evs0 ++ []). split; [now apply calc_returns|].
      now rewrite app_nil_r.
Qed.

(** C8, as amended.  A reactant whose SMILES resolves to a structure of
    weight zero is not rejected by an explicit check, and no infinite
    value propagates either: the division raises ZeroDivisionError, the
    handler of the loop body turns it into a failure record, and the
    function returns a failure, never a success.  When every reactant
    before it is processed, the record is the UnexpectedFailure one
    naming the reactant and carrying the text of the exception. *)
Theorem zero_weight_caught reactants ps pr name data s w mol mw :
  In (name, data) reactants ->
  smiles data = Some s -> weight_g data = Some w ->
  str_truthy s = true -> float_truthy w = true ->
  MolFromSmiles s = Normal (Some mol) -> CalcExactMolWt mol = Normal mw ->
  (mw =? 0)%float = true ->
  (exists msg evs,
     runs (calculate_theoretical_yield MolFromSmiles CalcExactMolWt
             reactants ps pr) (Normal (Error msg)) evs
     /\ reactant_only evs)
  /\ (forall pre post es,
        reactants = pre ++ (name, data) :: post ->
        all_moles MolFromSmiles CalcExactMolWt pre = Some es ->
        kind_of (reactant_fault name
                   (ZeroDivisionError "float division by zero"))
        = Some UnexpectedFailure /\
        exists evs,
          runs (calculate_theoretical_yield MolFromSmiles CalcExactMolWt
                  reactants ps pr)
               (Normal (reactant_fault name
                          (ZeroDivisionError "float division by zero")))
               evs).
Proof.
  intros Hin Hs Hw Ts Tw HM HC Hz. split.
  - apply calc_None.
    eapply all_moles_In_None; [exact Hin|].
    eapply moles_zero_weight; eassumption.
  - intros pre post es -> Hpre. split; [apply kind_reactant_fault|].
    destruct (loop_stops pre name data post es
                (reactant_fault name
                   (ZeroDivisionError "float division by zero"))
                [MolFromSmilesCall (ReactantSite name) s;
                 CalcExactMolWtCall (ReactantSite name)] Hpre)
      with (d := @nil (string * float)) as (evs0 & R & _).
    + intros d. eapply step_zero_weight; eassumption.
    + eexists. apply calc_returns. exact R.
Qed.

(** C10.  A mass that is present but zero, and a SMILES that is present
    but empty, are treated exactly like an absent field: taking them out
    of the reactant's record changes neither the returned record nor the
    resolver calls.  When every reactant before it is processed, the
    function returns the missing-SMILES-or-weight record for that
    reactant instead of computing with the zero mass. *)
Theorem falsy_field_as_absent pre name data post ps pr :
  (forall t,
     calculate_theoretical_yield MolFromSmiles CalcExactMolWt
       (pre ++ (name, data) :: post) ps pr t
     = calculate_theoretical_yield MolFromSmiles CalcExactMolWt
         (pre ++ (name, blank data) :: post) ps pr t)
  /\ (forall es,
        all_moles MolFromSmiles CalcExactMolWt pre = Some es ->
        smiles data = Some ""
        \/ (exists w, weight_g data = Some w /\ (w =? 0)%float = true) ->
        (smiles (blank data) = None \/ weight_g (blank data) = None) /\
        exists evs,
          runs (calculate_theoretical_yield MolFromSmiles CalcExactMolWt
                  (pre ++ (name, data) :: post) ps pr)
               (Normal (missing_field name)) evs).
Proof.
  split.
  - intros t. unfold calculate_theoretical_yield, bind.
    now rewrite (loop_ext pre name data (blank data) post
                   (step_blank name data)).
  - intros es Hpre Hfalsy.
    assert (Hb : smiles (blank data) = None \/ weight_g (blank data) = None).
    { unfold blank. cbn [smiles weight_g].
      destruct Hfalsy as [-> | (w & -> & Hz)].
      - now left.
      - right. unfold float_truthy. now rewrite Hz. }
    split; [exact Hb|].
    assert (Hl : lacks_smiles_or_weight data = true).
    { unfold lacks_smiles_or_weight.
      destruct Hfalsy as [-> | (w & -> & Hz)].
      - now destruct (weight_g data).
      - destruct (smiles data); [|reflexivity].
        unfold float_truthy. rewrite Hz. apply orb_true_r. }
    destruct (loop_stops pre name data post es (missing_field name) [] Hpre)
      with (d := @nil (string * float)) as (evs0 & R & _).
    + intros d. now apply step_missing.
    + eexists. apply calc_returns. exact R.
Qed.

End Properties.

(* ================================================================== *)
(** * Concrete runs *)
(* ================================================================== *)

(** A resolver with a four-entry table: a molecule is represented by its
    weight; ["*"] (a dummy atom) has weight zero, ["boom"] makes the
    resolver raise, and any other string does not parse. *)
Definition table_MolFromSmiles (s : string) : outcome (option float) :=
  if String.eqb s "CCO" then Normal (Some 46%float)
  else if String.eqb s "O" then Normal (Some 18%float)
  else if String.eqb s "*" then Normal (Some 0%float)
  else if String.eqb s "boom" then Raised (ResolverError "resolver fault")
  else Normal None.

Definition table_CalcExactMolWt (mol : float) : outcome float := Normal mol.

Definition reactant (s : string) (w r : float) : reactant_data :=
  {| smiles := Some s; weight_g := Some w; mole_ratio := Some r |}.

Definition table_yield :=
  calculate_theoretical_yield table_MolFromSmiles table_CalcExactMolWt.

Ltac distinct_names :=
  repeat constructor; simpl; intuition discriminate.

(** Three reactants: 1 mol of ethanol at ratio 1, 0.5 mol of water at
    ratio 2 and 0.25 mol of steam at ratio 1.  Water and steam are tied at
    a normalized count of 0.25; water comes first and is the limiting
    one. *)
Definition three_reactants : list (string * reactant_data) :=
  [("ethanol", reactant "CCO" 46 1);
   ("water", reactant "O" 9 2);
   ("steam", reactant "O" 4.5 1)].

(** The yield formula on the three reactants with a product ratio of 2,
    and the ethanol scenario of section 8 with rounded weights: 46 g of
    ethanol give one mole, hence 18 g of water. *)
Lemma ethanol_scenario :
  (exists name data w mw v evs,
     In (name, data) three_reactants /\
     weight_g data = Some w /\
     molecular_weight table_MolFromSmiles table_CalcExactMolWt data
     = Some mw /\
     v = ((w / mw) / match mole_ratio data with
                     | Some r => r
                     | None => 1.0
                     end)%float /\
     (forall name' data',
        In (name', data') three_reactants ->
        exists w' mw',
          weight_g data' = Some w' /\
          molecular_weight table_MolFromSmiles table_CalcExactMolWt data'
          = Some mw' /\
          (v <=? (w' / mw') / match mole_ratio data' with
                              | Some r => r
                              | None => 1.0
                              end)%float = true) /\
     runs (table_yield three_reactants "O" 2%float)
          (Normal (Success ((v * 2) * 18)%float name)) evs)
  /\ (exists w mw evs,
        weight_g (reactant "CCO" 46 1) = Some w /\
        molecular_weight table_MolFromSmiles table_CalcExactMolWt
          (reactant "CCO" 46 1) = Some mw /\
        runs (table_yield [("ethanol", reactant "CCO" 46 1)] "O" 1%float)
             (Normal (Success ((w / mw) * 18)%float "ethanol")) evs).
Proof.
  split.
  - apply (proj1 (theoretical_yield_formula float table_MolFromSmiles
                    table_CalcExactMolWt three_reactants "O" 2%float 18%float
                    ltac:(discriminate) ltac:(distinct_names)
                    eq_refl eq_refl)).
  - apply (proj2 (theoretical_yield_formula float table_MolFromSmiles
                    table_CalcExactMolWt
                    [("ethanol", reactant "CCO" 46 1)] "O" 1%float 18%float
                    ltac:(discriminate) ltac:(distinct_names)
                    eq_refl eq_refl)
             "ethanol" (reactant "CCO" 46 1) eq_refl eq_refl eq_refl).
Defined.

(** With a product ratio of 2 the water, 9 g at ratio 2, limits the
    yield to [(9 / 18 / 2) * 2 * 18 = 9] grams. *)
Example water_limits_run :
  fst (table_yield three_reactants "O" 2%float [])
  = Normal (Success 9%float "water").
Proof. reflexivity. Qed.

(** One pass of the loop body, the mole ratio left out. *)
Lemma stores_ethanol_moles :
  exists v evs,
    runs (reactant_step table_MolFromSmiles table_CalcExactMolWt "ethanol"
            {| smiles := Some "CCO"; weight_g := Some 92%float;
               mole_ratio := None |} [])
         (Normal (Continues (dict_setitem [] "ethanol" v))) evs /\
    dict_get (dict_setitem [] "ethanol" v) "ethanol" = Some v /\
    v = ((92 / 46) / 1.0)%float /\
    (@None float = None -> v = (92 / 46)%float).
Proof.
  apply (normalized_mole_count float table_MolFromSmiles table_CalcExactMolWt
           "ethanol"
           {| smiles := Some "CCO"; weight_g := Some 92%float;
              mole_ratio := None |} [] "CCO" 92%float 46%float 46%float
           eq_refl eq_refl eq_refl eq_refl eq_refl eq_refl eq_refl eq_refl).
Defined.

(** Of the two reactants tied at 0.25 mol the first in iteration order,
    water, is the limiting one. *)
Lemma first_of_tied_reactants :
  exists l1 name v l2 evs,
    [("ethanol", 1%float); ("water", 0.25%float); ("steam", 0.25%float)]
    = l1 ++ (name, v) :: l2 /\
    runs (table_yield three_reactants "O" 1%float)
         (Normal (Success ((v * 1) * 18)%float name)) evs /\
    Forall (fun e => (v <? snd e)%float = true) l1 /\
    Forall (fun e => (v <=? snd e)%float = true) l2 /\
    (forall A vA B vB,
       In (A, vA)
          [("ethanol", 1%float); ("water", 0.25%float); ("steam", 0.25%float)] ->
       In (B, vB)
          [("ethanol", 1%float); ("water", 0.25%float); ("steam", 0.25%float)] ->
       (vA <? vB)%float = true -> name <> B) /\
    (forall A vA B vB,
       [("ethanol", 1%float); ("water", 0.25%float); ("steam", 0.25%float)]
       = [(A, vA); (B, vB)] \/
       [("ethanol", 1%float); ("water", 0.25%float); ("steam", 0.25%float)]
       = [(B, vB); (A, vA)] ->
       (vA <? vB)%float = true -> name = A).
Proof.
  apply (limiting_reactant_minimum float table_MolFromSmiles
           table_CalcExactMolWt three_reactants "O" 1%float 18%float
           [("ethanol", 1%float); ("water", 0.25%float); ("steam", 0.25%float)]
           ltac:(discriminate) ltac:(distinct_names)
           eq_refl eq_refl eq_refl).
Defined.

Example tied_reactants_run :
  table_yield three_reactants "O" 1%float []
  = (Normal (Success 4.5%float "water"),
     [MolFromSmilesCall (ReactantSite "ethanol") "CCO";
      CalcExactMolWtCall (ReactantSite "ethanol");
      MolFromSmilesCall (ReactantSite "water") "O";
      CalcExactMolWtCall (ReactantSite "water");
      MolFromSmilesCall (ReactantSite "steam") "O";
      CalcExactMolWtCall (ReactantSite "steam");
      MolFromSmilesCall ProductSite "O";
      CalcExactMolWtCall ProductSite]).
Proof. reflexivity. Qed.

(** ** Unresolvable SMILES *)

(** The second reactant does not parse, but the first one lacks its mass:
    the failure returned is the MissingField one for the first reactant.
    With no reactant at all, an unparseable product gives the NoReactants
    failure. *)
Definition masked_parse_failure : list (string * reactant_data) :=
  [("a", {| smiles := Some "CCO"; weight_g := None; mole_ratio := None |});
   ("b", reactant "???" 1 1)].

Lemma parse_failure_masked :
  unresolvable table_MolFromSmiles "???" /\
  In ("b", reactant "???" 1 1) masked_parse_failure /\
  fst (table_yield masked_parse_failure "O" 1%float [])
  = Normal (Error "Invalid data for reactant 'a'. Missing SMILES or weight.") /\
  kind_of (Error "Invalid data for reactant 'a'. Missing SMILES or weight.")
  <> Some ParseFailure /\
  fst (table_yield [] "???" 1%float [])
  = Normal (Error "No valid reactants provided.") /\
  kind_of (Error "No valid reactants provided.") <> Some ParseFailure.
Proof.
  repeat split; try reflexivity; try discriminate.
  right. now left.
Qed.

Lemma unparsed_reactant_fails :
  kind_of (reactant_parse_failure "b" "???") = Some ParseFailure /\
  exists evs,
    runs (table_yield [("a", reactant "CCO" 46 1); ("b", reactant "???" 1 1)]
            "O" 1%float)
         (Normal (reactant_parse_failure "b" "???")) evs.
Proof.
  apply (proj1 (proj2
           (unresolved_smiles_fails float table_MolFromSmiles
              table_CalcExactMolWt
              [("a", reactant "CCO" 46 1); ("b", reactant "???" 1 1)]
              "O" 1%float
              (or_introl
                 (ex_intro _ "b"
                    (ex_intro _ (reactant "???" 1 1)
                       (ex_intro _ "???"
                          (conj (or_intror (or_introl eq_refl))
                                (conj eq_refl eq_refl))))))))
           [("a", reactant "CCO" 46 1)] "b" (reactant "???" 1 1) []
           [("a", 1%float)] "???" eq_refl eq_refl eq_refl eq_refl eq_refl).
Defined.

(** ** Missing fields *)

(** The second reactant lacks its mass, but the first one does not parse:
    the failure returned is the ParseFailure one for the first reactant,
    and it does not name the second. *)
Definition masked_missing_field : list (string * reactant_data) :=
  [("a", reactant "???" 1 1);
   ("b", {| smiles := Some "O"; weight_g := None; mole_ratio := None |})].

Lemma missing_field_masked :
  In ("b", {| smiles := Some "O"; weight_g := None; mole_ratio := None |})
     masked_missing_field /\
  fst (table_yield masked_missing_field "O" 1%float [])
  = Normal (Error "Could not parse SMILES for reactant 'a': ???") /\
  kind_of (Error "Could not parse SMILES for reactant 'a': ???")
  <> Some MissingField /\
  fst (table_yield masked_missing_field "O" 1%float [])
  <> Normal (missing_field "b").
Proof.
  repeat split; try reflexivity; try discriminate.
  right. now left.
Qed.

Lemma missing_mass_fails :
  kind_of (missing_field "b") = Some MissingField /\
  exists evs,
    runs (table_yield
            [("a", reactant "CCO" 46 1);
             ("b", {| smiles := Some "O"; weight_g := None;
                      mole_ratio := None |})]
            "O" 1%float)
         (Normal (missing_field "b")) evs
    /\ reactant_only evs.
Proof.
  apply (proj2
           (missing_field_fails float table_MolFromSmiles table_CalcExactMolWt
              [("a", reactant "CCO" 46 1);
               ("b", {| smiles := Some "O"; weight_g := None;
                        mole_ratio := None |})]
              "O" 1%float "b"
              {| smiles := Some "O"; weight_g := None; mole_ratio := None |}
              (or_intror (or_introl eq_refl)) (or_intror eq_refl))
           [("a", reactant "CCO" 46 1)] [] [("a", 1%float)]
           eq_refl eq_refl).
Defined.

(** ** A structure of weight zero *)

(** IEEE division of 1.0 by 0.0 is infinity, but Python's division
    raises: the function returns a failure record, not a success with
    an infinite yield. *)
Lemma zero_weight_no_infinite_yield :
  table_MolFromSmiles "*" = Normal (Some 0%float) /\
  (1 / 0)%float = infinity /\
  fst (table_yield [("a", reactant "*" 1 1)] "O" 1%float [])
  = Normal (Error "An error occurred with reactant 'a': float division by zero") /\
  ~ (exists y name,
       fst (table_yield [("a", reactant "*" 1 1)] "O" 1%float [])
       = Normal (Success y name)).
Proof.
  repeat split; try reflexivity.
  intros (y & name & H). discriminate H.
Qed.

Lemma zero_weight_fails :
  kind_of (reactant_fault "a" (ZeroDivisionError "float division by zero"))
  = Some UnexpectedFailure /\
  exists evs,
    runs (table_yield [("a", reactant "*" 1 1)] "O" 1%float)
         (Normal (reactant_fault "a"
                    (ZeroDivisionError "float division by zero"))) evs.
Proof.
  apply (proj2
           (zero_weight_caught float table_MolFromSmiles table_CalcExactMolWt
              [("a", reactant "*" 1 1)] "O" 1%float "a" (reactant "*" 1 1)
              "*" 1%float 0%float 0%float
              (or_introl eq_refl) eq_refl eq_refl eq_refl eq_refl
              eq_refl eq_refl eq_refl)
           [] [] [] eq_refl eq_refl).
Defined.

(** ** Faults of the resolver, and falsy fields *)



Lemma zero_mass_as_absent :
  (smiles (blank (reactant "CCO" 0 1)) = None \/
   weight_g (blank (reactant "CCO" 0 1)) = None) /\
  exists evs,
    runs (table_yield ([] ++ [("a", reactant "CCO" 0 1)]) "O" 1%float)
         (Normal (missing_field "a")) evs.
Proof.
  apply (proj2
           (falsy_field_as_absent float table_MolFromSmiles
              table_CalcExactMolWt [] "a" (reactant "CCO" 0 1) [] "O" 1%float)
           [] eq_refl
           (or_intror (ex_intro _ 0%float (conj eq_refl eq_refl)))).
Defined.

Example negative_zero_mass_run :
  fst (table_yield [("a", reactant "CCO" (-0) 1)] "O" 1%float [])
  = Normal (missing_field "a").
Proof. reflexivity. Qed.

Example empty_smiles_run :
  fst (table_yield [("a", reactant "" 46 1)] "O" 1%float [])
  = Normal (missing_field "a").
Proof. reflexivity. Qed.

(* ================================================================== *)
(** * Further properties of the calculator *)
(* ================================================================== *)

From Stdlib Require Import Permutation.

(** ** Signs and NaN in binary64 arithmetic *)

(** A specification float that is [+0], positive and finite, or
    [+infinity]. *)
Definition sf_nonneg (x : spec_float) : Prop :=
  match x with
  | S754_zero s | S754_infinity s | S754_finite s _ _ => s = false
  | S754_nan => False
  end.

(** The same for a float: neither NaN nor negative nor [-0.0]. *)
Definition nonneg (x : float) : Prop := sf_nonneg (Prim2SF x).

Section Signs.
Local Open Scope Z_scope.

Lemma binary_round_aux_nonneg (m e : Z) (l : location) :
  0 <= m -> sf_nonneg (binary_round_aux prec emax false m e l).
Proof.
  intros Hm. unfold binary_round_aux.
  pose proof (shr_fexp_nonneg m e l Hm) as H1.
  destruct (shr_fexp prec emax m e l) as [mrs' e'] eqn:E1. cbn [fst] in H1.
  pose proof (shr_fexp_nonneg _ e' loc_Exact
                (round_nearest_even_nonneg _ (loc_of_shr_record mrs') H1)) as H2.
  destruct (shr_fexp prec emax _ e' loc_Exact) as [mrs'' e''] eqn:E2.
  cbn [fst] in H2.
  destruct (shr_m mrs'') as [|p|p]; try reflexivity; try lia.
  destruct (e'' <=? emax - prec); reflexivity.
Qed.

Lemma SFdiv_nonneg (x : spec_float) (m : positive) (e : Z) :
  sf_nonneg x -> sf_nonneg (SF64div x (S754_finite false m e)).
Proof.
  unfold SF64div.
  destruct x as [sx|sx| |sx mx ex]; cbn [SFdiv sf_nonneg];
    try (intros ->; reflexivity); try contradiction.
  intros ->. cbn [xorb]. unfold SFdiv_core_binary.
  set (m' := match _ with 0 => Zpos mx | Zpos _ => _ | Zneg _ => 0 end).
  assert (Hm' : 0 <= m').
  { subst m'. destruct (_ - _ - _)%Z; try lia.
    rewrite Z.shiftl_mul_pow2 by lia. lia. }
  rewrite div_eucl_div_mod.
  apply binary_round_aux_nonneg. apply Z.div_pos; lia.
Qed.

Lemma SFmul_nonneg (x : spec_float) (m : positive) (e : Z) :
  sf_nonneg x -> sf_nonneg (SF64mul x (S754_finite false m e)).
Proof.
  unfold SF64mul.
  destruct x as [sx|sx| |sx mx ex]; cbn [SFmul sf_nonneg];
    try (intros ->; reflexivity); try contradiction.
  intros ->. cbn [xorb]. apply binary_round_aux_nonneg. lia.
Qed.

(** Among non-negative floats, [<=] is antisymmetric up to equality. *)
Lemma sf_nonneg_antisym (x y : spec_float) :
  sf_nonneg x -> sf_nonneg y ->
  SFleb x y = true -> SFleb y x = true -> x = y.
Proof.
  unfold SFleb.
  destruct x as [sx|sx| |sx mx ex], y as [sy|sy| |sy my ey];
    cbn [sf_nonneg SFcompare]; intros Hx Hy; try contradiction; subst;
    try discriminate; try reflexivity.
  change (Pos.compare_cont Eq mx my) with (Pos.compare mx my).
  change (Pos.compare_cont Eq my mx) with (Pos.compare my mx).
  rewrite (Z.compare_antisym ex ey), (Pos.compare_antisym mx my).
  destruct (Z.compare_spec ex ey) as [E| |]; cbn [CompOpp];
    try discriminate.
  destruct (Pos.compare_spec mx my) as [E'| |]; cbn [CompOpp];
    try discriminate.
  now subst.
Qed.

End Signs.

Lemma positive_real_nonneg (x : float) :
  positive_real x = true -> nonneg x.
Proof.
  intros H. destruct (positive_real_sf x H) as (m & e & E).
  unfold nonneg. now rewrite E.
Qed.

Lemma div_nonneg (a b : float) :
  nonneg a -> positive_real b = true -> nonneg (a / b)%float.
Proof.
  intros Ha Hb. destruct (positive_real_sf b Hb) as (m & e & E).
  unfold nonneg. rewrite div_spec, E. now apply SFdiv_nonneg.
Qed.

Lemma mul_nonneg (a b : float) :
  nonneg a -> positive_real b = true -> nonneg (a * b)%float.
Proof.
  intros Ha Hb. destruct (positive_real_sf b Hb) as (m & e & E).
  unfold nonneg. rewrite mul_spec, E. now apply SFmul_nonneg.
Qed.

Lemma nonneg_leb_antisym (a b : float) :
  nonneg a -> nonneg b ->
  (a <=? b)%float = true -> (b <=? a)%float = true -> a = b.
Proof.
  rewrite !leb_spec. intros Ha Hb H1 H2.
  apply Prim2SF_inj. now apply sf_nonneg_antisym.
Qed.

Lemma nonneg_zero_leb (a : float) : nonneg a -> (0 <=? a)%float = true.
Proof.
  unfold nonneg. rewrite leb_spec.
  change (Prim2SF 0) with (S754_zero false). unfold SFleb.
  destruct (Prim2SF a) as [s|s| |s m e]; cbn [sf_nonneg SFcompare];
    try contradiction; intros ->; reflexivity.
Qed.

Lemma is_nan_true_sf (x : float) :
  is_nan x = true -> Prim2SF x = S754_nan.
Proof.
  intros H. destruct (Prim2SF x) as [s|s| |s m e] eqn:E; try reflexivity;
    assert (N : is_nan x = false)
      by (apply is_nan_sf; rewrite E; discriminate);
    congruence.
Qed.

(** Nothing is below NaN, and NaN is below nothing. *)
Lemma ltb_nan_r (x y : float) : is_nan y = true -> (x <? y)%float = false.
Proof.
  intros H. rewrite ltb_spec, (is_nan_true_sf y H). unfold SFltb.
  now destruct (Prim2SF x).
Qed.

Lemma ltb_nan_l (x y : float) : is_nan x = true -> (x <? y)%float = false.
Proof.
  intros H. rewrite ltb_spec, (is_nan_true_sf x H). reflexivity.
Qed.

Lemma mul_nan_l (x y : float) :
  is_nan x = true -> is_nan (x * y)%float = true.
Proof.
  intros H. destruct (is_nan (x * y)%float) eqn:E; [reflexivity|].
  apply is_nan_sf in E. exfalso. apply E.
  rewrite mul_spec, (is_nan_true_sf x H). reflexivity.
Qed.

(** ** The calls made to the resolver *)

(** The two calls made for a reactant that is processed. *)
Definition reactant_calls (item : string * reactant_data) : list event :=
  match smiles (snd item) with
  | Some s =>
      [MolFromSmilesCall (ReactantSite (fst item)) s;
       CalcExactMolWtCall (ReactantSite (fst item))]
  | None => []
  end.

Lemma dict_keys_update (es d : dict) (k : string) :
  In k (dict_keys (dict_update d es)) ->
  In k (dict_keys d) \/ In k (dict_keys es).
Proof.
  revert d. induction es as [|[k' v'] es IH]; intros d H; [now left|].
  cbn [dict_update fold_left fst snd] in H.
  destruct (IH _ H) as [H'|H']; [|right; now right].
  rewrite dict_keys_setitem in H'.
  destruct (existsb _ _); [now left|].
  apply in_app_or in H'. destruct H' as [H'|[<-|[]]]; [now left|].
  right. now left.
Qed.

Lemma dict_update_empty (es : dict) : dict_update [] es = [] -> es = [].
Proof.
  destruct es as [|e es]; [reflexivity|]. intros H.
  now apply dict_update_nonempty in H.
Qed.

Section Resolver_calls.

Variable Mol : Type.
Variable MolFromSmiles : string -> outcome (option Mol).
Variable CalcExactMolWt : Mol -> outcome float.

Local Abbreviation step := (reactant_step MolFromSmiles CalcExactMolWt).
Local Abbreviation loop := (reactant_loop MolFromSmiles CalcExactMolWt).
Local Abbreviation calc :=
  (calculate_theoretical_yield MolFromSmiles CalcExactMolWt).
Local Abbreviation moles := (normalized_moles MolFromSmiles CalcExactMolWt).
Local Abbreviation counts := (all_moles MolFromSmiles CalcExactMolWt).
Local Abbreviation weight_of := (exact_weight MolFromSmiles CalcExactMolWt).

Lemma step_Some_calls name data d v :
  moles data = Some v ->
  runs (step name data d) (Normal (Continues (dict_setitem d name v)))
       (reactant_calls (name, data)).
Proof.
  unfold normalized_moles, exact_weight, reactant_calls. cbn [fst snd].
  destruct (smiles data) as [s|] eqn:Hs; [|discriminate].
  destruct (weight_g data) as [w|] eqn:Hw; [|discriminate].
  destruct (str_truthy s && float_truthy w) eqn:Ht; [|discriminate].
  apply andb_true_iff in Ht. destruct Ht as [Ts Tw].
  destruct (MolFromSmiles s) as [[mol|]|e] eqn:HM; try discriminate.
  destruct (CalcExactMolWt mol) as [mw|e] eqn:HC; try discriminate.
  destruct ((mw =? 0)%float || (get_mole_ratio data =? 0)%float) eqn:Hz;
    [discriminate|].
  apply orb_false_iff in Hz. destruct Hz as [Hz Hr].
  intros E. injection E as <-.
  eapply step_stores; eassumption.
Qed.

Lemma loop_Some_calls items es :
  counts items = Some es ->
  forall d,
    runs (loop items d) (Normal (Continues (dict_update d es)))
         (flat_map reactant_calls items).
Proof.
  revert es. induction items as [|[name data] items IH]; intros es H d.
  - injection H as <-. apply runs_ret.
  - cbn [all_moles] in H.
    destruct (moles data) as [v|] eqn:Hv; [|discriminate].
    destruct (counts items) as [es'|] eqn:Hes; [|discriminate].
    injection H as <-. cbn [flat_map].
    eapply loop_cons_continues.
    + apply step_Some_calls. exact Hv.
    + apply (IH es' eq_refl).
Qed.

(** Resolving the product starts with one [MolFromSmiles] call and gives
    its weight exactly when [exact_weight] is defined. *)
Lemma product_runs ps :
  exists p rest,
    runs (product_weight MolFromSmiles CalcExactMolWt ps) (Normal p)
         (MolFromSmilesCall ProductSite ps :: rest)
    /\ match weight_of ps with
       | Some pw => p = inr pw /\ rest = [CalcExactMolWtCall ProductSite]
       | None => exists msg, p = inl (Error msg)
       end.
Proof.
  unfold exact_weight.
  destruct (MolFromSmiles ps) as [[mol|]|e] eqn:HM.
  - destruct (CalcExactMolWt mol) as [w|e] eqn:HC.
    + exists (inr w), [CalcExactMolWtCall ProductSite]. split; [|now split].
      apply product_resolved. unfold exact_weight. now rewrite HM, HC.
    + exists (inl (product_fault e)), [CalcExactMolWtCall ProductSite].
      split; [|now eexists].
      intros t. unfold product_weight, try_except, bind, Chem_MolFromSmiles,
        Chem_CalcExactMolWt, external, ret. rewrite HM, HC.
      now rewrite <- app_assoc.
  - exists (inl (product_parse_failure ps)), []. split; [|now eexists].
    now apply product_unparsed.
  - exists (inl (product_fault e)), []. split; [|now eexists].
    intros t. unfold product_weight, try_except, bind, Chem_MolFromSmiles,
      external, ret. now rewrite HM.
Qed.

(** What the function does, by cases on the reactants. *)
Lemma calc_cases reactants ps pr :
  match counts reactants with
  | None =>
      exists msg evs,
        runs (calc reactants ps pr) (Normal (Error msg)) evs
        /\ reactant_only evs
  | Some es =>
      match dict_update [] es with
      | [] =>
          runs (calc reactants ps pr) (Normal no_reactants)
               (flat_map reactant_calls reactants)
      | e :: rest =>
          forall p evsP,
            runs (product_weight MolFromSmiles CalcExactMolWt ps)
                 (Normal p) evsP ->
            runs (calc reactants ps pr)
                 (Normal match p with
                         | inl r => r
                         | inr pw =>
                             Success ((snd (min_scan e rest) * pr) * pw)%float
                                     (fst (min_scan e rest))
                         end)
                 (flat_map reactant_calls reactants ++ evsP)
      end
  end.
Proof.
  destruct (counts reactants) as [es|] eqn:Hes.
  - pose proof (loop_Some_calls reactants es Hes []) as R.
    assert (Hnd : NoDup (dict_keys (dict_update [] es)))
      by (apply dict_update_NoDup; constructor).
    set (d := dict_update [] es) in *. clearbody d.
    destruct d as [|e rest].
    + apply calc_no_reactants. exact R.
    + intros p evsP HP. eapply calc_continues; eassumption.
  - apply calc_None. exact Hes.
Qed.

Lemma counts_nil reactants : counts reactants = Some [] -> reactants = [].
Proof.
  destruct reactants as [|[n dt] items]; [reflexivity|].
  cbn [all_moles]. destruct (moles dt); [|discriminate].
  destruct (counts items); discriminate.
Qed.

End Resolver_calls.

(** ** Success, failure and the product *)

Section Outcomes.

Variable Mol : Type.
Variable MolFromSmiles : string -> outcome (option Mol).
Variable CalcExactMolWt : Mol -> outcome float.

Local Abbreviation step := (reactant_step MolFromSmiles CalcExactMolWt).
Local Abbreviation loop := (reactant_loop MolFromSmiles CalcExactMolWt).
Local Abbreviation calc :=
  (calculate_theoretical_yield MolFromSmiles CalcExactMolWt).
Local Abbreviation moles := (normalized_moles MolFromSmiles CalcExactMolWt).
Local Abbreviation counts := (all_moles MolFromSmiles CalcExactMolWt).
Local Abbreviation weight_of := (exact_weight MolFromSmiles CalcExactMolWt).

(** X1.  The function returns a success record exactly when the mapping
    is non-empty, every reactant has a normalized mole count (SMILES and
    mass present and truthy, SMILES resolved, no zero divisor, no fault)
    and the product resolves to a weight; and the reactant a success
    record reports is one of the names of the mapping. *)
Theorem success_exactly_when reactants ps pr :
  ((exists y name evs,
      runs (calculate_theoretical_yield MolFromSmiles CalcExactMolWt
              reactants ps pr) (Normal (Success y name)) evs)
   <-> reactants <> [] /\
       all_moles MolFromSmiles CalcExactMolWt reactants <> None /\
       exact_weight MolFromSmiles CalcExactMolWt ps <> None)
  /\ (forall y name evs,
        runs (calculate_theoretical_yield MolFromSmiles CalcExactMolWt
                reactants ps pr) (Normal (Success y name)) evs ->
        In name (map fst reactants)).
Proof.
  pose proof (calc_cases Mol MolFromSmiles CalcExactMolWt reactants ps pr)
    as Hc.
  destruct (product_runs Mol MolFromSmiles CalcExactMolWt ps)
    as (p & rest & HP & Hp).
  destruct (counts reactants) as [es|] eqn:Hes.
  - pose proof (all_moles_keys Mol MolFromSmiles CalcExactMolWt
                  reactants es Hes) as Hkeys.
    destruct (dict_update [] es) as [|e d] eqn:Hd.
    + apply dict_update_empty in Hd. subst es.
      apply counts_nil in Hes. subst reactants.
      split; [split|].
      * intros (y & name & evs & R).
        destruct (runs_unique _ _ _ _ _ R Hc) as [E _]. discriminate E.
      * intros (Hne & _). congruence.
      * intros y name evs R.
        destruct (runs_unique _ _ _ _ _ R Hc) as [E _]. discriminate E.
    + specialize (Hc p _ HP).
      assert (Hne : reactants <> []).
      { intros ->. cbn in Hes. injection Hes as <-. discriminate Hd. }
      split; [split|].
      * intros (y & name & evs & R).
        destruct (runs_unique _ _ _ _ _ R Hc) as [E _].
        split; [exact Hne|]. split; [discriminate|].
        destruct (weight_of ps); [discriminate|].
        destruct Hp as (msg & ->). discriminate E.
      * intros (_ & _ & Hw).
        destruct (weight_of ps) as [pw|]; [|congruence].
        destruct Hp as [-> _]. eauto.
      * intros y name evs R.
        destruct (runs_unique _ _ _ _ _ R Hc) as [E _].
        destruct (weight_of ps) as [pw|].
        -- destruct Hp as [-> _]. injection E as _ ->.
           rewrite <- Hkeys.
           assert (Hin : In (fst (min_scan e d)) (dict_keys (dict_update [] es))).
           { rewrite Hd. unfold dict_keys. apply in_map, min_scan_In. }
           destruct (dict_keys_update es [] _ Hin) as [[]|H]. exact H.
        -- destruct Hp as (msg & ->). discriminate E.
  - destruct Hc as (msg & evs0 & R0 & _).
    split; [split|].
    + intros (y & name & evs & R).
      destruct (runs_unique _ _ _ _ _ R R0) as [E _]. discriminate E.
    + intros (_ & H & _). congruence.
    + intros y name evs R.
      destruct (runs_unique _ _ _ _ _ R R0) as [E _]. discriminate E.
Qed.

(** X2.  On success the resolver is called exactly twice for each
    reactant (parse, then weigh), in the iteration order of the mapping,
    and then twice for the product: no SMILES is resolved twice and none
    is skipped. *)
Theorem success_calls reactants ps pr es pw :
  reactants <> [] ->
  all_moles MolFromSmiles CalcExactMolWt reactants = Some es ->
  exact_weight MolFromSmiles CalcExactMolWt ps = Some pw ->
  exists y name,
    runs (calculate_theoretical_yield MolFromSmiles CalcExactMolWt
            reactants ps pr)
         (Normal (Success y name))
         (flat_map reactant_calls reactants
          ++ [MolFromSmilesCall ProductSite ps;
              CalcExactMolWtCall ProductSite]).
Proof.
  intros Hne Hes Hw.
  pose proof (calc_cases Mol MolFromSmiles CalcExactMolWt reactants ps pr)
    as Hc.
  rewrite Hes in Hc.
  destruct (dict_update [] es) as [|e d] eqn:Hd.
  - apply dict_update_empty in Hd. subst es.
    apply counts_nil in Hes. congruence.
  - eexists _, _.
    apply (Hc (inr pw)). now apply product_resolved.
Qed.

(** X3.  The product SMILES is handed to the resolver exactly when the
    mapping is non-empty and every reactant has a normalized mole count:
    a failing reactant, or an empty mapping, ends the call before the
    product is looked at. *)
Theorem product_resolved_exactly_when reactants ps pr :
  exists r evs,
    runs (calculate_theoretical_yield MolFromSmiles CalcExactMolWt
            reactants ps pr) (Normal r) evs
    /\ (In (MolFromSmilesCall ProductSite ps) evs
        <-> reactants <> [] /\
            all_moles MolFromSmiles CalcExactMolWt reactants <> None).
Proof.
  pose proof (calc_cases Mol MolFromSmiles CalcExactMolWt reactants ps pr)
    as Hc.
  assert (Hno : forall items,
             ~ In (MolFromSmilesCall ProductSite ps)
                  (flat_map reactant_calls items)).
  { intros items H. apply in_flat_map in H. destruct H as (it & _ & H).
    unfold reactant_calls in H. destruct (smiles (snd it)); [|destruct H].
    destruct H as [H|[H|[]]]; discriminate H. }
  destruct (counts reactants) as [es|] eqn:Hes.
  - destruct (dict_update [] es) as [|e d] eqn:Hd.
    + apply dict_update_empty in Hd. subst es.
      apply counts_nil in Hes. subst reactants.
      eexists _, _. split; [exact Hc|]. split.
      * intros [].
      * intros [H _]. congruence.
    + destruct (product_runs Mol MolFromSmiles CalcExactMolWt ps)
        as (p & rest & HP & _).
      eexists _, _. split; [exact (Hc p _ HP)|]. split.
      * intros _. split; [|discriminate].
        intros ->. cbn in Hes. injection Hes as <-. discriminate Hd.
      * intros _. apply in_or_app. right. now left.
  - destruct Hc as (msg & evs & R & Ho).
    eexists _, _. split; [exact R|]. split.
    + intros H. unfold reactant_only in Ho. rewrite Forall_forall in Ho.
      specialize (Ho _ H). discriminate Ho.
    + intros [_ H]. congruence.
Qed.

(** A reactant without a normalized mole count ends the loop, whatever
    comes after it. *)
Lemma loop_cut pre name data post post' :
  moles data = None ->
  forall d t,
    loop (pre ++ (name, data) :: post) d t
    = loop (pre ++ (name, data) :: post') d t
    /\ exists r t',
         loop (pre ++ (name, data) :: post) d t = (Normal (Returns r), t').
Proof.
  intros HN.
  destruct (step_None Mol MolFromSmiles CalcExactMolWt name data HN)
    as (msg & evs & Hstep & _).
  induction pre as [|[n dt] pre IH]; intros d t.
  - cbn [app reactant_loop]. unfold bind. rewrite (Hstep d t).
    split; [reflexivity|]. unfold ret. eauto.
  - cbn [app reactant_loop]. unfold bind.
    destruct (moles dt) as [v|] eqn:Hv.
    + destruct (step_Some Mol MolFromSmiles CalcExactMolWt n dt d v Hv)
        as (evs1 & R1 & _).
      rewrite (R1 t). apply IH.
    + destruct (step_None Mol MolFromSmiles CalcExactMolWt n dt Hv)
        as (msg' & evs' & Hstep' & _).
      rewrite (Hstep' d t). split; [reflexivity|]. unfold ret. eauto.
Qed.

(** X4.  A reactant without a normalized mole count decides the call:
    nothing that follows it in the mapping, and nothing about the
    product, changes the returned record or the resolver calls made. *)
Theorem later_input_ignored pre name data post post' ps ps' pr pr' :
  normalized_moles MolFromSmiles CalcExactMolWt data = None ->
  forall t,
    calculate_theoretical_yield MolFromSmiles CalcExactMolWt
      (pre ++ (name, data) :: post) ps pr t
    = calculate_theoretical_yield MolFromSmiles CalcExactMolWt
        (pre ++ (name, data) :: post') ps' pr' t.
Proof.
  intros HN t. unfold calculate_theoretical_yield, bind.
  destruct (loop_cut pre name data post post' HN [] t) as [E (r & t' & R)].
  rewrite <- E, R. reflexivity.
Qed.

(** X5.  A mole ratio of zero is not rejected by a check: the second
    division raises ZeroDivisionError, and the function returns the
    UnexpectedFailure record naming the reactant, with no call made for
    the product. *)
Theorem zero_ratio_caught pre name data post ps pr es s w mol mw :
  all_moles MolFromSmiles CalcExactMolWt pre = Some es ->
  smiles data = Some s -> weight_g data = Some w ->
  str_truthy s = true -> float_truthy w = true ->
  MolFromSmiles s = Normal (Some mol) -> CalcExactMolWt mol = Normal mw ->
  (mw =? 0)%float = false -> (get_mole_ratio data =? 0)%float = true ->
  kind_of (reactant_fault name (ZeroDivisionError "float division by zero"))
  = Some UnexpectedFailure /\
  exists evs,
    runs (calculate_theoretical_yield MolFromSmiles CalcExactMolWt
            (pre ++ (name, data) :: post) ps pr)
         (Normal (reactant_fault name
                    (ZeroDivisionError "float division by zero"))) evs
    /\ reactant_only evs.
Proof.
  intros Hpre Hs Hw Ts Tw HM HC Hz Hr.
  split; [apply kind_reactant_fault|].
  destruct (loop_stops Mol MolFromSmiles CalcExactMolWt pre name data post es
              (reactant_fault name
                 (ZeroDivisionError "float division by zero"))
              [MolFromSmilesCall (ReactantSite name) s;
               CalcExactMolWtCall (ReactantSite name)] Hpre)
    with (d := @nil (string * float)) as (evs0 & R & O).
  - intros d. eapply step_zero_ratio; eassumption.
  - eexists. split; [apply calc_returns; exact R|].
    apply reactant_only_app; [exact O | repeat constructor].
Qed.

(** X6.  An exception raised by [CalcExactMolWt] is caught like one raised
    by [MolFromSmiles]: for a reactant the function returns the
    UnexpectedFailure record naming it, for the product the one for the
    product, each carrying the text of the exception. *)
Theorem weight_fault_returned reactants ps pr mol e :
  CalcExactMolWt mol = Raised e ->
  (forall pre name data post es s w,
     reactants = pre ++ (name, data) :: post ->
     all_moles MolFromSmiles CalcExactMolWt pre = Some es ->
     smiles data = Some s -> weight_g data = Some w ->
     str_truthy s = true -> float_truthy w = true ->
     MolFromSmiles s = Normal (Some mol) ->
     exists evs,
       runs (calculate_theoretical_yield MolFromSmiles CalcExactMolWt
               reactants ps pr) (Normal (reactant_fault name e)) evs)
  /\ (forall es,
        reactants <> [] ->
        all_moles MolFromSmiles CalcExactMolWt reactants = Some es ->
        MolFromSmiles ps = Normal (Some mol) ->
        exists evs,
          runs (calculate_theoretical_yield MolFromSmiles CalcExactMolWt
                  reactants ps pr) (Normal (product_fault e)) evs).
Proof.
  intros HC. split.
  - intros pre name data post es s w -> Hpre Hs Hw Ts Tw HM.
    destruct (loop_stops Mol MolFromSmiles CalcExactMolWt pre name data post
                es (reactant_fault name e)
                [MolFromSmilesCall (ReactantSite name) s;
                 CalcExactMolWtCall (ReactantSite name)] Hpre)
      with (d := @nil (string * float)) as (evs0 & R & _).
    + intros d. eapply step_weight_raises; eassumption.
    + eexists. apply calc_returns. exact R.
  - intros es Hne Hes HM.
    pose proof (calc_cases Mol MolFromSmiles CalcExactMolWt reactants ps pr)
      as Hc.
    rewrite Hes in Hc.
    destruct (dict_update [] es) as [|e0 d] eqn:Hd.
    + apply dict_update_empty in Hd. subst es.
      apply counts_nil in Hes. congruence.
    + eexists.
      apply (Hc (inl (product_fault e))
               [MolFromSmilesCall ProductSite ps;
                CalcExactMolWtCall ProductSite]).
      intros t. unfold product_weight, try_except, bind, Chem_MolFromSmiles,
        Chem_CalcExactMolWt, external, ret. rewrite HM, HC.
      now rewrite <- app_assoc.
Qed.

End Outcomes.

(** ** The yield as a number *)

Lemma nonneg_not_nan (x : float) : nonneg x -> is_nan x = false.
Proof.
  unfold nonneg. intros H. apply is_nan_sf. intros E.
  now rewrite E in H.
Qed.

Lemma min_scan_nan (rest : dict) (best : string * float) :
  is_nan (snd best) = true -> min_scan best rest = best.
Proof.
  intros H. induction rest as [|e rest IH]; [reflexivity|].
  cbn [min_scan]. now rewrite (ltb_nan_r (snd e) (snd best) H).
Qed.

Section Yield.

Variable Mol : Type.
Variable MolFromSmiles : string -> outcome (option Mol).
Variable CalcExactMolWt : Mol -> outcome float.

Local Abbreviation calc :=
  (calculate_theoretical_yield MolFromSmiles CalcExactMolWt).
Local Abbreviation moles := (normalized_moles MolFromSmiles CalcExactMolWt).
Local Abbreviation counts := (all_moles MolFromSmiles CalcExactMolWt).
Local Abbreviation wf := (well_formed MolFromSmiles CalcExactMolWt).

Lemma well_formed_nonneg data :
  wf data = true -> exists v, moles data = Some v /\ nonneg v.
Proof.
  unfold well_formed, normalized_moles.
  destruct (smiles data) as [s|]; [|discriminate].
  destruct (weight_g data) as [w|]; [|discriminate].
  destruct (exact_weight _ _ s) as [mw|];
    [|rewrite andb_false_r; discriminate].
  intros H. repeat (apply andb_true_iff in H; destruct H as [H ?]).
  eexists. split.
  - rewrite H. unfold float_truthy.
    rewrite (positive_real_nonzero w), (positive_real_nonzero mw),
      (positive_real_nonzero (get_mole_ratio data)) by assumption.
    reflexivity.
  - apply div_nonneg; [|assumption].
    apply div_nonneg; [|assumption].
    now apply positive_real_nonneg.
Qed.

(** The record for well-formed reactants: the reported count is
    non-negative and no reactant has a smaller one. *)
Lemma calc_minimum reactants ps pr pw :
  reactants <> [] ->
  NoDup (map fst reactants) ->
  forallb (fun it => wf (snd it)) reactants = true ->
  exact_weight MolFromSmiles CalcExactMolWt ps = Some pw ->
  exists name data v evs,
    In (name, data) reactants /\ moles data = Some v /\ nonneg v /\
    (forall name' data',
       In (name', data') reactants ->
       exists v', moles data' = Some v' /\ (v <=? v')%float = true) /\
    runs (calc reactants ps pr)
         (Normal (Success ((v * pr) * pw)%float name)) evs.
Proof.
  intros Hne Hnd Hwf HP.
  destruct (well_formed_all Mol MolFromSmiles CalcExactMolWt reactants Hwf)
    as (es & Hes & Hnan).
  pose proof (all_moles_keys Mol MolFromSmiles CalcExactMolWt
                reactants es Hes) as Hkeys.
  destruct es as [|e es'].
  { destruct reactants; [congruence | discriminate]. }
  assert (Hnd' : NoDup (dict_keys (e :: es'))) by now rewrite Hkeys.
  destruct (calc_Some Mol MolFromSmiles CalcExactMolWt reactants ps pr e es'
              (inr pw) _ Hes Hnd'
              (product_resolved Mol MolFromSmiles CalcExactMolWt ps pw HP))
    as (evs0 & R & _).
  pose proof (min_scan_In es' e) as Hin.
  set (m := min_scan e es') in *.
  destruct (all_moles_In Mol MolFromSmiles CalcExactMolWt reactants
              (e :: es') (fst m) (snd m) Hes)
    as (data & Hdata & Hv).
  { now rewrite <- surjective_pairing. }
  exists (fst m), data, (snd m). eexists.
  split; [exact Hdata|]. split; [exact Hv|]. split; [|split; [|exact R]].
  - rewrite forallb_forall in Hwf. specialize (Hwf _ Hdata). cbn [snd] in Hwf.
    destruct (well_formed_nonneg data Hwf) as (v & Hv' & Hn).
    congruence.
  - intros name' data' Hin'.
    destruct (all_moles_of Mol MolFromSmiles CalcExactMolWt reactants
                (e :: es') name' data' Hes Hin')
      as (v' & Hv' & Hi').
    exists v'. split; [exact Hv'|].
    rewrite Forall_forall in Hnan.
    apply not_ltb_leb.
    + now apply Hnan.
    + apply (Hnan _ Hi').
    + apply (min_scan_minimal es' e _ Hi').
Qed.

(** X7.  For well-formed reactants the yield does not depend on the
    iteration order of the mapping: the function succeeds on the items
    and on any permutation of them with the same yield.  The two reported
    reactants are tied: both have the same normalized mole count, the
    minimum over the mapping, so the reported name changes only among
    reactants that attain the minimum, and not at all when one reactant
    alone attains it. *)
Theorem yield_order_independent reactants reactants' ps pr pw :
  Permutation reactants reactants' ->
  reactants <> [] ->
  NoDup (map fst reactants) ->
  forallb (fun it => well_formed MolFromSmiles CalcExactMolWt (snd it))
    reactants = true ->
  exact_weight MolFromSmiles CalcExactMolWt ps = Some pw ->
  exists v name data name' data' evs evs',
    runs (calculate_theoretical_yield MolFromSmiles CalcExactMolWt
            reactants ps pr)
         (Normal (Success ((v * pr) * pw)%float name)) evs /\
    runs (calculate_theoretical_yield MolFromSmiles CalcExactMolWt
            reactants' ps pr)
         (Normal (Success ((v * pr) * pw)%float name')) evs' /\
    In (name, data) reactants /\ In (name', data') reactants /\
    normalized_moles MolFromSmiles CalcExactMolWt data = Some v /\
    normalized_moles MolFromSmiles CalcExactMolWt data' = Some v /\
    (forall n d,
       In (n, d) reactants ->
       exists v',
         normalized_moles MolFromSmiles CalcExactMolWt d = Some v' /\
         (v <=? v')%float = true) /\
    ((forall n d,
        In (n, d) reactants ->
        normalized_moles MolFromSmiles CalcExactMolWt d = Some v ->
        n = name) ->
     name' = name).
Proof.
  intros Hperm Hne Hnd Hwf HP.
  assert (Hne' : reactants' <> []).
  { intros ->. apply Permutation_sym, Permutation_nil in Hperm. congruence. }
  assert (Hnd' : NoDup (map fst reactants')).
  { eapply Permutation_NoDup; [|exact Hnd]. now apply Permutation_map. }
  assert (Hwf' : forallb (fun it => wf (snd it)) reactants' = true).
  { rewrite forallb_forall in *. intros x Hx. apply Hwf.
    eapply Permutation_in; [|exact Hx]. now apply Permutation_sym. }
  destruct (calc_minimum reactants ps pr pw Hne Hnd Hwf HP)
    as (n1 & d1 & v1 & evs1 & Hin1 & Hm1 & Hn1 & Hmin1 & R1).
  destruct (calc_minimum reactants' ps pr pw Hne' Hnd' Hwf' HP)
    as (n2 & d2 & v2 & evs2 & Hin2 & Hm2 & Hn2 & Hmin2 & R2).
  assert (Hin2' : In (n2, d2) reactants).
  { eapply Permutation_in; [|exact Hin2]. now apply Permutation_sym. }
  assert (E : v1 = v2).
  { destruct (Hmin1 n2 d2 Hin2') as (v & Hv & Hle1).
    destruct (Hmin2 n1 d1) as (v' & Hv' & Hle2).
    { eapply Permutation_in; [exact Hperm | exact Hin1]. }
    assert (v = v2) by congruence. assert (v' = v1) by congruence. subst.
    now apply nonneg_leb_antisym. }
  subst v2.
  exists v1, n1, d1, n2, d2, evs1, evs2.
  repeat (split; [assumption|]).
  intros Honly. now apply (Honly n2 d2).
Qed.

(** X8.  NaN counts.  When the first reactant's normalized mole count is
    NaN (a NaN or infinite mass can make it so), that reactant is
    reported and the yield is NaN, whatever the other reactants are;
    and a reactant whose count is NaN is never reported unless it comes
    first. *)
Theorem nan_count_first_only reactants ps pr es pw :
  NoDup (map fst reactants) ->
  all_moles MolFromSmiles CalcExactMolWt reactants = Some es ->
  exact_weight MolFromSmiles CalcExactMolWt ps = Some pw ->
  (forall name0 v0 rest,
     es = (name0, v0) :: rest -> is_nan v0 = true ->
     exists y evs,
       runs (calculate_theoretical_yield MolFromSmiles CalcExactMolWt
               reactants ps pr) (Normal (Success y name0)) evs /\
       is_nan y = true)
  /\ (forall y name evs v,
        runs (calculate_theoretical_yield MolFromSmiles CalcExactMolWt
                reactants ps pr) (Normal (Success y name)) evs ->
        In (name, v) es -> is_nan v = true ->
        exists rest, es = (name, v) :: rest).
Proof.
  intros Hnd Hes HP.
  pose proof (all_moles_keys Mol MolFromSmiles CalcExactMolWt
                reactants es Hes) as Hkeys.
  assert (Hnd' : NoDup (dict_keys es)) by now rewrite Hkeys.
  split.
  - intros name0 v0 rest -> Hnan.
    destruct (calc_Some Mol MolFromSmiles CalcExactMolWt reactants ps pr
                (name0, v0) rest (inr pw) _ Hes Hnd'
                (product_resolved Mol MolFromSmiles CalcExactMolWt ps pw HP))
      as (evs0 & R & _).
    rewrite (min_scan_nan rest (name0, v0) Hnan) in R. cbn [fst snd] in R.
    eexists _, _. split; [exact R|].
    now apply mul_nan_l, mul_nan_l.
  - intros y name evs v R Hin Hnan.
    destruct es as [|e rest]; [destruct Hin|].
    destruct (calc_Some Mol MolFromSmiles CalcExactMolWt reactants ps pr
                e rest (inr pw) _ Hes Hnd'
                (product_resolved Mol MolFromSmiles CalcExactMolWt ps pw HP))
      as (evs0 & R' & _).
    destruct (runs_unique _ _ _ _ _ R R') as [E _].
    injection E as _ Hname.
    pose proof (min_scan_In rest e) as Hm.
    destruct (min_scan_split rest e) as (l1 & l2 & Heq & Hhead & _).
    set (m := min_scan e rest) in *.
    assert (Hv : snd m = v).
    { pose proof (dict_get_In _ _ _ Hnd' Hin) as G1.
      assert (G2 : dict_get (e :: rest) name = Some (snd m)).
      { apply dict_get_In; [assumption|]. rewrite Hname.
        now rewrite <- surjective_pairing. }
      congruence. }
    destruct Hhead as [->|Hlt].
    + cbn [app] in Heq. injection Heq as He Hr.
      exists rest. rewrite He, (surjective_pairing m), <- Hname, Hv.
      reflexivity.
    + rewrite Hv in Hlt. now rewrite (ltb_nan_l v (snd e) Hnan) in Hlt.
Qed.

(** X9.  For well-formed reactants, a positive product mole ratio and a
    product of positive weight, the yield is a non-negative number: it
    is not NaN and not below zero (it may overflow to infinity). *)
Theorem yield_nonnegative reactants ps pr pw :
  reactants <> [] ->
  NoDup (map fst reactants) ->
  forallb (fun it => well_formed MolFromSmiles CalcExactMolWt (snd it))
    reactants = true ->
  exact_weight MolFromSmiles CalcExactMolWt ps = Some pw ->
  positive_real pr = true -> positive_real pw = true ->
  exists y name evs,
    runs (calculate_theoretical_yield MolFromSmiles CalcExactMolWt
            reactants ps pr) (Normal (Success y name)) evs /\
    (0 <=? y)%float = true /\ is_nan y = false.
Proof.
  intros Hne Hnd Hwf HP Hpr Hpw.
  destruct (calc_minimum reactants ps pr pw Hne Hnd Hwf HP)
    as (n & d & v & evs & _ & _ & Hn & _ & R).
  assert (Hy : nonneg ((v * pr) * pw)%float)
    by (apply mul_nonneg; [apply mul_nonneg|]; assumption).
  eexists _, _, _. split; [exact R|].
  split; [now apply nonneg_zero_leb | now apply nonneg_not_nan].
Qed.

(** X15.  The limiting reactant is a matter of the reactants alone: once
    a call has succeeded, a call on the same mapping with any other
    product and product mole ratio either reports the same reactant, or
    fails because that product does not resolve to a weight; it never
    raises. *)
Theorem limiting_reactant_from_reactants reactants ps pr y name t :
  fst (calculate_theoretical_yield MolFromSmiles CalcExactMolWt
         reactants ps pr t) = Normal (Success y name) ->
  forall ps' pr' t',
    match fst (calculate_theoretical_yield MolFromSmiles CalcExactMolWt
                 reactants ps' pr' t') with
    | Normal (Success _ name') => name' = name
    | Normal (Error _) =>
        exact_weight MolFromSmiles CalcExactMolWt ps' = None
    | Raised _ => False
    end.
Proof.
  intros H ps' pr' t'.
  pose proof (calc_cases Mol MolFromSmiles CalcExactMolWt reactants ps pr)
    as Hc.
  pose proof (calc_cases Mol MolFromSmiles CalcExactMolWt reactants ps' pr')
    as Hc'.
  destruct (counts reactants) as [es|].
  - destruct (dict_update [] es) as [|e d].
    + rewrite (Hc t) in H. discriminate H.
    + destruct (product_runs Mol MolFromSmiles CalcExactMolWt ps)
        as (p & rest & HP & Hp).
      destruct (product_runs Mol MolFromSmiles CalcExactMolWt ps')
        as (p' & rest' & HP' & Hp').
      rewrite (Hc p _ HP t) in H. rewrite (Hc' p' _ HP' t').
      cbn [fst] in *.
      assert (Hname : name = fst (min_scan e d)).
      { destruct (exact_weight MolFromSmiles CalcExactMolWt ps).
        - destruct Hp as [-> _]. now injection H as _ <-.
        - destruct Hp as (msg & ->). discriminate H. }
      destruct (exact_weight MolFromSmiles CalcExactMolWt ps').
      * destruct Hp' as [-> _]. now rewrite Hname.
      * destruct Hp' as (msg & ->). reflexivity.
  - destruct Hc as (msg & evs & R & _). rewrite (R t) in H. discriminate H.
Qed.

End Yield.

(* ================================================================== *)
(** * The interactive shell (lines 78-116) *)
(* ================================================================== *)

From Stdlib Require Import DecimalString.

(** The shell reads lines from standard input, writes to standard output
    and calls the calculator, which calls the resolver.  [int(...)],
    [float(...)] and the [:.2f] format are Python's own and enter as
    parameters. *)

Definition newline : string := String (ascii_of_nat 10) "".

(** [str(n)] for an int. *)
Definition str_of_int (n : Z) : string := NilZero.string_of_int (Z.to_int n).

Record console : Type := {
  stdin : list string;          (* the lines not read yet *)
  stdout : list string;         (* what was written, oldest first *)
  resolver_log : list event
}.

(** What can be raised inside the [try] of the shell. *)
Inductive shell_exn : Type :=
| NumberValueError                (* [int()] or [float()] rejects a text *)
| EOFError                        (* [input()] at the end of the input *)
| FromCalculator (e : exn).

Inductive io_outcome (A : Type) : Type :=
| Done (a : A)
| Thrown (e : shell_exn).
Arguments Done {A} a.
Arguments Thrown {A} e.

Definition IO (A : Type) : Type := console -> io_outcome A * console.

Definition io_ret {A} (a : A) : IO A := fun c => (Done a, c).

Definition io_bind {A B} (m : IO A) (f : A -> IO B) : IO B :=
  fun c =>
    match m c with
    | (Done a, c') => f a c'
    | (Thrown e, c') => (Thrown e, c')
    end.

Definition io_try {A} (body : IO A) (handler : shell_exn -> IO A) : IO A :=
  fun c =>
    match body c with
    | (Done a, c') => (Done a, c')
    | (Thrown e, c') => handler e c'
    end.

Definition write (s : string) (c : console) : console :=
  {| stdin := stdin c; stdout := stdout c ++ [s];
     resolver_log := resolver_log c |}.

(** [print(s)] *)
Definition print (s : string) : IO unit :=
  fun c => (Done tt, write (s ++ newline)%string c).

(** [input(prompt)]: the prompt is written, then a line is read. *)
Definition input (prompt : string) : IO string :=
  fun c =>
    match stdin c with
    | [] => (Thrown EOFError, write prompt c)
    | line :: rest =>
        (Done line,
         {| stdin := rest; stdout := stdout c ++ [prompt];
            resolver_log := resolver_log c |})
    end.

(** [int(text)] and [float(text)], given the parser. *)
Definition parse {A} (parser : string -> option A) (text : string) : IO A :=
  match parser text with
  | Some a => io_ret a
  | None => fun c => (Thrown NumberValueError, c)
  end.

(** A call of the calculator, run on the resolver log. *)
Definition call {A} (m : Py A) : IO A :=
  fun c =>
    match m (resolver_log c) with
    | (Normal a, t) =>
        (Done a,
         {| stdin := stdin c; stdout := stdout c; resolver_log := t |})
    | (Raised e, t) =>
        (Thrown (FromCalculator e),
         {| stdin := stdin c; stdout := stdout c; resolver_log := t |})
    end.

Declare Scope io_scope.
Delimit Scope io_scope with io.
Notation "x <- m ;; k" := (io_bind m (fun x => k))
  (at level 100, m at next level, right associativity) : io_scope.

(** [reactants_data[name] = data] on the dict given by its items. *)
Fixpoint items_setitem (d : list (string * reactant_data)) (k : string)
    (v : reactant_data) : list (string * reactant_data) :=
  match d with
  | [] => [(k, v)]
  | (k', v') :: d' =>
      if String.eqb k' k then (k', v) :: d'
      else (k', v') :: items_setitem d' k v
  end.

Fixpoint items_get (d : list (string * reactant_data)) (k : string)
    : option reactant_data :=
  match d with
  | [] => None
  | (k', v') :: d' => if String.eqb k' k then Some v' else items_get d' k
  end.

(** The three lines printed for a success, the one for a failure
    (lines 106-111). *)
Definition report (format_2f : float -> string) (r : result) : list string :=
  match r with
  | Error msg => [((newline ++ "Error: " ++ msg) ++ newline)%string]
  | Success y name =>
      [((newline ++ "--- Calculation Results ---") ++ newline)%string;
       (("Limiting Reactant: " ++ name) ++ newline)%string;
       (("Theoretical Yield of Product: " ++ format_2f y ++ " g")
        ++ newline)%string]
  end.

Definition banner : list string :=
  [("--- Theoretical Yield Calculator ---" ++ newline)%string;
   ("This tool calculates the theoretical yield of a reaction."
    ++ newline)%string;
   ("You will be asked to provide information for each reactant and the product."
    ++ newline)%string].

Definition count_prompt : string :=
  (newline ++ "Enter the number of reactants: ")%string.

Definition not_positive_message : string :=
  ("Please enter a positive number of reactants." ++ newline)%string.

Definition invalid_input_message : string :=
  ((newline ++ "Invalid input. Please make sure to enter numbers for weight and mole ratios.")
   ++ newline)%string.

Definition unexpected_error_message (text : string) : string :=
  ((newline ++ "An unexpected error occurred: " ++ text) ++ newline)%string.

(** A record with all three keys set, as line 95 builds it. *)
Definition complete (item : string * reactant_data) : Prop :=
  smiles (snd item) <> None /\ weight_g (snd item) <> None /\
  mole_ratio (snd item) <> None.

Section Shell.

Variable Mol : Type.
Variable MolFromSmiles : string -> outcome (option Mol).
Variable CalcExactMolWt : Mol -> outcome float.
Variable py_int : string -> option Z.
Variable py_float : string -> option float.
Variable format_2f : float -> string.

Local Open Scope io_scope.

(** Lines 90-99: [for i in range(num_reactants)], [remaining] passes
    being left, the next index being [i]. *)
Fixpoint read_reactants (remaining : nat) (i : Z)
    (reactants_data : list (string * reactant_data))
    : IO (list (string * reactant_data)) :=
  match remaining with
  | O => io_ret reactants_data
  | S remaining' =>
      name <- input (newline ++ "Enter the name of reactant "
                     ++ str_of_int (i + 1) ++ " (e.g., 'ethene'): ") ;;
      smiles <- input ("Enter the SMILES code for " ++ name ++ ": ") ;;
      weight_text <- input ("Enter the weight of " ++ name ++ " in grams: ") ;;
      weight_g <- parse py_float weight_text ;;
      ratio_text <- input ("Enter the mole ratio for " ++ name ++ ": ") ;;
      mole_ratio <- parse py_float ratio_text ;;
      read_reactants remaining' (i + 1)
        (items_setitem reactants_data name
           {| smiles := Some smiles; weight_g := Some weight_g;
              mole_ratio := Some mole_ratio |})
  end.

(** Lines 113-116: the two handlers. *)
Definition shell_handler (e : shell_exn) : IO unit :=
  match e with
  | NumberValueError | FromCalculator (ValueError _) =>
      print (newline ++ "Invalid input. Please make sure to enter numbers for weight and mole ratios.")
  | EOFError =>
      print (newline ++ "An unexpected error occurred: "
             ++ "EOF when reading a line")
  | FromCalculator e' =>
      print (newline ++ "An unexpected error occurred: " ++ exn_str e')
  end.

(** Lines 78-116. *)
Definition main : IO unit :=
  _ <- print "--- Theoretical Yield Calculator ---" ;;
  _ <- print "This tool calculates the theoretical yield of a reaction." ;;
  _ <- print "You will be asked to provide information for each reactant and the product." ;;
  io_try
    (count_text <- input (newline ++ "Enter the number of reactants: ") ;;
     num_reactants <- parse py_int count_text ;;
     if (num_reactants <=? 0)%Z then
       print "Please enter a positive number of reactants."
     else
       reactants_data <- read_reactants (Z.to_nat num_reactants) 0 [] ;;
       product_smiles <-
         input (newline ++ "Enter the SMILES code for the product: ") ;;
       ratio_text <- input "Enter the mole ratio for the product: " ;;
       product_mole_ratio <- parse py_float ratio_text ;;
       result <-
         call (calculate_theoretical_yield MolFromSmiles CalcExactMolWt
                 reactants_data product_smiles product_mole_ratio) ;;
       match result with
       | Error msg => print (newline ++ "Error: " ++ msg)
       | Success theoretical_yield_g limiting_reactant =>
           _ <- print (newline ++ "--- Calculation Results ---") ;;
           _ <- print ("Limiting Reactant: " ++ limiting_reactant) ;;
           print ("Theoretical Yield of Product: "
                  ++ format_2f theoretical_yield_g ++ " g")
       end)
    shell_handler.

End Shell.

Arguments read_reactants : clear implicits.
Arguments main {Mol}.

(** ** The mapping the shell builds *)

Lemma items_keys_setitem d k v :
  map fst (items_setitem d k v)
  = if existsb (String.eqb k) (map fst d) then map fst d
    else map fst d ++ [k].
Proof.
  induction d as [|[k' v'] d IH]; simpl; [reflexivity|].
  rewrite (String.eqb_sym k k').
  destruct (String.eqb k' k); simpl; [reflexivity|].
  rewrite IH. now destruct (existsb _ _).
Qed.

Lemma items_setitem_NoDup d k v :
  NoDup (map fst d) -> NoDup (map fst (items_setitem d k v)).
Proof.
  intros H. rewrite items_keys_setitem.
  destruct (existsb (String.eqb k) (map fst d)) eqn:E; [assumption|].
  apply NoDup_app; [assumption | repeat constructor; simpl; tauto |].
  intros x Hx [Ex|[]]. subst x.
  assert (existsb (String.eqb k) (map fst d) = true); [|congruence].
  apply existsb_exists. exists k. split; [assumption | apply String.eqb_refl].
Qed.

Lemma items_setitem_complete d k v :
  Forall complete d -> complete (k, v) ->
  Forall complete (items_setitem d k v).
Proof.
  intros Hd Hv. induction d as [|[k' v'] d IH]; simpl.
  - now constructor.
  - apply Forall_cons_iff in Hd. destruct Hd as [Hk Hd].
    destruct (String.eqb k' k).
    + constructor; [exact Hv | exact Hd].
    + constructor; [exact Hk | now apply IH].
Qed.

Lemma items_setitem_nonempty d k v : items_setitem d k v <> [].
Proof.
  destruct d as [|[k' v'] d]; simpl; [discriminate|].
  destruct (String.eqb k' k); discriminate.
Qed.

Lemma items_get_setitem_same d k v : items_get (items_setitem d k v) k = Some v.
Proof.
  induction d as [|[k' v'] d IH]; simpl.
  - now rewrite String.eqb_refl.
  - destruct (String.eqb k' k) eqn:E; simpl; now rewrite E.
Qed.

Lemma items_get_setitem_other d k v k' :
  k <> k' -> items_get (items_setitem d k v) k' = items_get d k'.
Proof.
  intros Hne. induction d as [|[k0 v0] d IH]; simpl.
  - destruct (String.eqb_spec k k'); [contradiction | reflexivity].
  - destruct (String.eqb_spec k0 k) as [->|Hk]; simpl.
    + destruct (String.eqb_spec k k'); [contradiction | reflexivity].
    + now rewrite IH.
Qed.

(** ** What is typed for one reactant *)

Record entry : Type := {
  entry_name : string;
  entry_smiles : string;
  entry_weight : string;
  entry_ratio : string
}.

Definition entry_lines (e : entry) : list string :=
  [entry_name e; entry_smiles e; entry_weight e; entry_ratio e].

Definition entry_prompts (i : Z) (e : entry) : list string :=
  [(newline ++ "Enter the name of reactant " ++ str_of_int (i + 1)
    ++ " (e.g., 'ethene'): ")%string;
   ("Enter the SMILES code for " ++ entry_name e ++ ": ")%string;
   ("Enter the weight of " ++ entry_name e ++ " in grams: ")%string;
   ("Enter the mole ratio for " ++ entry_name e ++ ": ")%string].

Fixpoint session_prompts (i : Z) (entries : list entry) : list string :=
  match entries with
  | [] => []
  | e :: entries' => entry_prompts i e ++ session_prompts (i + 1) entries'
  end.

Definition product_prompts : list string :=
  [(newline ++ "Enter the SMILES code for the product: ")%string;
   "Enter the mole ratio for the product: "].

Section Entries.

Variable py_float : string -> option float.

(** The record line 95 builds from an entry whose numbers parse. *)
Definition entry_data (e : entry) : option reactant_data :=
  match py_float (entry_weight e), py_float (entry_ratio e) with
  | Some w, Some r =>
      Some {| smiles := Some (entry_smiles e); weight_g := Some w;
              mole_ratio := Some r |}
  | _, _ => None
  end.

(** The dict after the entries have been stored in turn. *)
Fixpoint entered (entries : list entry)
    (reactants_data : list (string * reactant_data))
    : option (list (string * reactant_data)) :=
  match entries with
  | [] => Some reactants_data
  | e :: entries' =>
      match entry_data e with
      | Some data =>
          entered entries' (items_setitem reactants_data (entry_name e) data)
      | None => None
      end
  end.

(** Reading entries whose numbers parse stores them and goes on with the
    rest of the input. *)
Lemma read_reactants_app entries :
  forall m i acc data inp out log,
    entered entries acc = Some data ->
    read_reactants py_float (List.length entries + m) i acc
      {| stdin := flat_map entry_lines entries ++ inp; stdout := out;
         resolver_log := log |}
    = read_reactants py_float m (i + Z.of_nat (List.length entries)) data
        {| stdin := inp; stdout := out ++ session_prompts i entries;
           resolver_log := log |}.
Proof.
  induction entries as [|e entries IH]; intros m i acc data inp out log H.
  - cbn in H. injection H as <-. cbn [List.length flat_map app session_prompts].
    now rewrite Z.add_0_r, app_nil_r.
  - cbn [entered] in H. unfold entry_data in H.
    destruct (py_float (entry_weight e)) as [w|] eqn:Hw; [|discriminate].
    destruct (py_float (entry_ratio e)) as [r|] eqn:Hr; [|discriminate].
    cbn [List.length Nat.add flat_map entry_lines app read_reactants].
    cbv [io_bind input parse io_ret stdin stdout resolver_log].
    rewrite Hw, Hr.
    rewrite (IH m (i + 1)%Z _ data inp _ log H).
    cbn [session_prompts entry_prompts].
    rewrite <- !app_assoc. cbn [app].
    replace (i + 1 + Z.of_nat (List.length entries))%Z
      with (i + Z.of_nat (S (List.length entries)))%Z by lia.
    reflexivity.
Qed.

(** Whatever is typed, reading the reactants calls no resolver, only adds
    to the output, raises nothing but the two input errors, and keeps the
    names distinct and the records complete. *)
Lemma read_reactants_inv n :
  forall i acc c o c',
    read_reactants py_float n i acc c = (o, c') ->
    resolver_log c' = resolver_log c /\
    (exists written, stdout c' = stdout c ++ written) /\
    match o with
    | Done data =>
        (NoDup (map fst acc) -> NoDup (map fst data)) /\
        (Forall complete acc -> Forall complete data) /\
        (n <> O -> data <> [])
    | Thrown e => e = EOFError \/ e = NumberValueError
    end.
Proof.
  induction n as [|n IH]; intros i acc c o c' H.
  - cbn in H. injection H as <- <-.
    split; [reflexivity|]. split; [exists []; now rewrite app_nil_r|].
    split; [auto|]. split; [auto | congruence].
  - destruct c as [inp out log]. cbn [read_reactants] in H.
    cbv [io_bind input parse io_ret write stdin stdout resolver_log] in H.
    destruct inp as [|name inp].
    { injection H as <- <-. cbn. split; [reflexivity|].
      split; [eauto | now left]. }
    destruct inp as [|smi inp].
    { injection H as <- <-. cbn. split; [reflexivity|].
      split; [rewrite <- app_assoc; eauto | now left]. }
    destruct inp as [|wt inp].
    { injection H as <- <-. cbn. split; [reflexivity|].
      split; [rewrite <- !app_assoc; eauto | now left]. }
    destruct (py_float wt) as [w|].
    2:{ injection H as <- <-. cbn. split; [reflexivity|].
        split; [rewrite <- !app_assoc; eauto | now right]. }
    destruct inp as [|rt inp].
    { injection H as <- <-. cbn. split; [reflexivity|].
      split; [rewrite <- !app_assoc; eauto | now left]. }
    destruct (py_float rt) as [r|].
    2:{ injection H as <- <-. cbn. split; [reflexivity|].
        split; [rewrite <- !app_assoc; eauto | now right]. }
    destruct (IH _ _ _ _ _ H) as (Hlog & (written & Hout) & Ho).
    cbn [stdout resolver_log] in *.
    split; [exact Hlog|].
    split; [rewrite Hout, <- !app_assoc; eauto|].
    destruct o as [data|e]; [|exact Ho].
    destruct Ho as (Hnd & Hc & Hne).
    split; [intros Hacc; apply Hnd; now apply items_setitem_NoDup|].
    split.
    + intros Hacc. apply Hc. apply items_setitem_complete; [exact Hacc|].
      repeat split; discriminate.
    + intros _. destruct n as [|n'].
      * cbn in H. injection H as <- _. apply items_setitem_nonempty.
      * now apply Hne.
Qed.

End Entries.

(** ** Sessions *)

Ltac same_output :=
  unfold banner, count_prompt, product_prompts, report, not_positive_message,
    invalid_input_message, unexpected_error_message;
  cbn [stdout];
  repeat rewrite <- app_assoc; cbn [app];
  repeat rewrite <- app_assoc; cbn [app];
  reflexivity.

Section Sessions.

Variable Mol : Type.
Variable MolFromSmiles : string -> outcome (option Mol).
Variable CalcExactMolWt : Mol -> outcome float.
Variable py_int : string -> option Z.
Variable py_float : string -> option float.
Variable format_2f : float -> string.

Local Abbreviation shell :=
  (main MolFromSmiles CalcExactMolWt py_int py_float format_2f).
Local Abbreviation calc :=
  (calculate_theoretical_yield MolFromSmiles CalcExactMolWt).

Lemma entered_get_kept post :
  forall acc data k,
    entered py_float post acc = Some data ->
    (forall e', In e' post -> entry_name e' <> k) ->
    items_get data k = items_get acc k.
Proof.
  induction post as [|e post IH]; intros acc data k H Hk.
  - cbn in H. now injection H as <-.
  - cbn [entered] in H.
    destruct (entry_data py_float e) as [d|]; [|discriminate].
    rewrite (IH _ _ k H) by (intros e' He'; apply Hk; now right).
    apply items_get_setitem_other. apply Hk. now left.
Qed.

Lemma entered_app pre :
  forall rest acc data,
    entered py_float (pre ++ rest) acc = Some data ->
    exists mid,
      entered py_float pre acc = Some mid /\
      entered py_float rest mid = Some data.
Proof.
  induction pre as [|e pre IH]; intros rest acc data H.
  - exists acc. now split.
  - cbn [app entered] in *.
    destruct (entry_data py_float e) as [d|]; [|discriminate].
    now apply IH.
Qed.

Lemma entered_NoDup entries :
  forall acc data,
    entered py_float entries acc = Some data ->
    NoDup (map fst acc) -> NoDup (map fst data).
Proof.
  induction entries as [|e entries IH]; intros acc data H Hnd.
  - cbn in H. now injection H as <-.
  - cbn [entered] in H.
    destruct (entry_data py_float e) as [d|]; [|discriminate].
    apply (IH _ _ H). now apply items_setitem_NoDup.
Qed.

(** X10.  A name entered twice.  When all numbers parse, the mapping the
    loop of the shell builds has distinct names, and under a name it
    holds the record of the last entry typed with that name: an earlier
    entry of the same name is silently dropped. *)
Theorem last_entry_wins pre e post rest out log :
  entered py_float (pre ++ e :: post) [] <> None ->
  (forall e', In e' post -> entry_name e' <> entry_name e) ->
  exists data,
    read_reactants py_float (List.length (pre ++ e :: post)) 0 []
      {| stdin := flat_map entry_lines (pre ++ e :: post) ++ rest;
         stdout := out; resolver_log := log |}
    = (Done data,
       {| stdin := rest;
          stdout := out ++ session_prompts 0 (pre ++ e :: post);
          resolver_log := log |})
    /\ items_get data (entry_name e) = entry_data py_float e
    /\ NoDup (map fst data).
Proof.
  intros Hparse Hlater.
  destruct (entered py_float (pre ++ e :: post) []) as [data|] eqn:H;
    [|congruence].
  exists data. split; [|split].
  - rewrite <- (Nat.add_0_r (List.length (pre ++ e :: post))).
    rewrite (read_reactants_app py_float _ 0 0%Z [] data rest out log H).
    reflexivity.
  - destruct (entered_app pre (e :: post) [] data H) as (mid & _ & H2).
    cbn [entered] in H2.
    destruct (entry_data py_float e) as [d|]; [|discriminate].
    rewrite (entered_get_kept post _ data (entry_name e) H2 Hlater).
    apply items_get_setitem_same.
  - apply (entered_NoDup _ [] data H). constructor.
Qed.

(** X11.  The count prompt.  When the first line does not parse as an
    int, or parses as an int that is not positive, the shell reads no
    further line, prints one message after the prompt (the invalid-input
    one, or the request for a positive number) and calls no resolver. *)
Theorem count_not_positive c text rest :
  stdin c = text :: rest ->
  py_int text = None \/ (exists n, py_int text = Some n /\ (n <= 0)%Z) ->
  main MolFromSmiles CalcExactMolWt py_int py_float format_2f c
  = (Done tt,
     {| stdin := rest;
        stdout := stdout c ++ banner
                  ++ [count_prompt;
                      match py_int text with
                      | None => invalid_input_message
                      | Some _ => not_positive_message
                      end];
        resolver_log := resolver_log c |}).
Proof.
  destruct c as [inp out log]. cbn [stdin stdout resolver_log].
  intros -> H.
  cbv [main io_bind io_try print input parse io_ret write shell_handler
       stdin stdout resolver_log].
  destruct H as [-> | (n & -> & Hn)].
  - f_equal. f_equal. same_output.
  - apply Z.leb_le in Hn. rewrite Hn. f_equal. f_equal. same_output.
Qed.

(** X12.  A complete session.  When the count parses as the number of
    entries typed, all weights and ratios parse, and the calculator,
    called on the mapping built from the entries, returns [r], then the
    shell consumes exactly the lines of the session, prints the banner,
    every prompt in order and the report of [r], and leaves in the
    resolver log what the calculator left. *)
Theorem complete_session entries count_text ps ratio_text pr rest out log
    data r log' :
  entries <> [] ->
  py_int count_text = Some (Z.of_nat (List.length entries)) ->
  entered py_float entries [] = Some data ->
  py_float ratio_text = Some pr ->
  calculate_theoretical_yield MolFromSmiles CalcExactMolWt data ps pr log
  = (Normal r, log') ->
  main MolFromSmiles CalcExactMolWt py_int py_float format_2f
    {| stdin := count_text :: flat_map entry_lines entries
                ++ ps :: ratio_text :: rest;
       stdout := out; resolver_log := log |}
  = (Done tt,
     {| stdin := rest;
        stdout := out ++ banner ++ count_prompt
                  :: session_prompts 0 entries ++ product_prompts
                  ++ report format_2f r;
        resolver_log := log' |}).
Proof.
  intros Hne Hcount Hdata Hratio Hcalc.
  assert (Hpos : (Z.of_nat (List.length entries) <=? 0)%Z = false).
  { apply Z.leb_gt. destruct entries; [congruence | cbn; lia]. }
  cbv [main io_bind io_try print input parse io_ret write shell_handler
       stdin stdout resolver_log].
  rewrite Hcount, Hpos, Nat2Z.id.
  rewrite <- (Nat.add_0_r (List.length entries)).
  rewrite (read_reactants_app py_float entries 0 0%Z [] data _ _ log Hdata).
  cbn [read_reactants]. cbv [io_ret call stdin stdout resolver_log].
  rewrite Hratio, Hcalc.
  destruct r as [msg|y name]; f_equal; f_equal; same_output.
Qed.

(** X13.  A number that does not parse.  When the text typed for the
    weight of a reactant, or for its mole ratio, is rejected by
    [float()], the shell stops reading there, prints the invalid-input
    message and calls no resolver, however many reactants were entered
    before. *)
Theorem bad_number_stops entries count_text n name smi tail rest out log
    data :
  py_int count_text = Some n ->
  (Z.of_nat (List.length entries) < n)%Z ->
  entered py_float entries [] = Some data ->
  (exists bad, tail = bad :: rest /\ py_float bad = None)
  \/ (exists good bad,
        tail = good :: bad :: rest /\ py_float good <> None /\
        py_float bad = None) ->
  exists written,
    main MolFromSmiles CalcExactMolWt py_int py_float format_2f
      {| stdin := count_text :: flat_map entry_lines entries
                  ++ name :: smi :: tail;
         stdout := out; resolver_log := log |}
    = (Done tt,
       {| stdin := rest;
          stdout := out ++ banner ++ count_prompt :: written
                    ++ [invalid_input_message];
          resolver_log := log |}).
Proof.
  intros Hcount Hlt Hdata Htail.
  assert (Hpos : (n <=? 0)%Z = false) by (apply Z.leb_gt; lia).
  assert (Hn : exists m, Z.to_nat n = (List.length entries + S m)%nat).
  { exists (Z.to_nat n - List.length entries - 1)%nat. lia. }
  destruct Hn as (m & Hn).
  cbv [main io_bind io_try print input parse io_ret write shell_handler
       stdin stdout resolver_log].
  rewrite Hcount, Hpos, Hn.
  rewrite (read_reactants_app py_float entries (S m) 0%Z [] data _ _ log
             Hdata).
  cbn [read_reactants].
  cbv [io_bind input parse io_ret write stdin stdout resolver_log].
  set (e := {| entry_name := name; entry_smiles := smi;
               entry_weight := ""; entry_ratio := "" |}).
  destruct Htail as [(bad & -> & Hbad) | (good & bad & -> & Hgood & Hbad)].
  - rewrite Hbad.
    exists (session_prompts 0 entries
            ++ firstn 3 (entry_prompts (0 + Z.of_nat (List.length entries)) e)).
    f_equal. f_equal. unfold entry_prompts, e. cbn [firstn entry_name].
    same_output.
  - destruct (py_float good) as [w|]; [|congruence]. rewrite Hbad.
    exists (session_prompts 0 entries
            ++ entry_prompts (0 + Z.of_nat (List.length entries)) e).
    f_equal. f_equal. unfold entry_prompts, e. cbn [entry_name].
    same_output.
Qed.

(** The records the loop body and the product resolution return are never
    the NoReactants one, and the loop leaves a non-empty mapping with a
    non-empty dict of counts: on a non-empty mapping the check of line 50
    never fires. *)
Lemma step_not_no_reactants name data d t r :
  fst (reactant_step MolFromSmiles CalcExactMolWt name data d t)
  = Normal (Returns r) ->
  r <> no_reactants.
Proof.
  unfold reactant_step, try_except, bind, Chem_MolFromSmiles,
    Chem_CalcExactMolWt, external, py_truediv, ret, raise, no_reactants.
  destruct (smiles data) as [s|], (weight_g data) as [w|];
    try (simpl; intros H E; rewrite E in H; discriminate H).
  destruct (negb (str_truthy s) || negb (float_truthy w));
    [simpl; intros H E; rewrite E in H; discriminate H|].
  destruct (MolFromSmiles s) as [[mol|]|e];
    [|simpl; intros H E; rewrite E in H; discriminate H ..].
  destruct (CalcExactMolWt mol) as [mw|e];
    [|simpl; intros H E; rewrite E in H; discriminate H].
  destruct (mw =? 0)%float;
    [simpl; intros H E; rewrite E in H; discriminate H|].
  destruct (get_mole_ratio data =? 0)%float;
    [simpl; intros H E; rewrite E in H; discriminate H|].
  discriminate.
Qed.

Lemma step_continues_nonempty name data d t d' :
  fst (reactant_step MolFromSmiles CalcExactMolWt name data d t)
  = Normal (Continues d') ->
  d' <> [].
Proof.
  unfold reactant_step, try_except, bind, Chem_MolFromSmiles,
    Chem_CalcExactMolWt, external, py_truediv, ret, raise.
  destruct (smiles data) as [s|], (weight_g data) as [w|];
    try discriminate.
  destruct (negb (str_truthy s) || negb (float_truthy w)); [discriminate|].
  destruct (MolFromSmiles s) as [[mol|]|e]; try discriminate.
  destruct (CalcExactMolWt mol) as [mw|e]; [|discriminate].
  destruct (mw =? 0)%float; [discriminate|].
  destruct (get_mole_ratio data =? 0)%float; [discriminate|].
  simpl. intros H. injection H as <-. apply dict_setitem_nonempty.
Qed.

Lemma loop_not_no_reactants items d t r :
  fst (reactant_loop MolFromSmiles CalcExactMolWt items d t)
  = Normal (Returns r) ->
  r <> no_reactants.
Proof.
  revert d t. induction items as [|[name data] items IH]; intros d t.
  - discriminate.
  - cbn [reactant_loop]. unfold bind.
    destruct (reactant_step MolFromSmiles CalcExactMolWt name data d t)
      as [[[r'|d']|e] t'] eqn:Hs.
    + cbn. intros H. injection H as <-.
      apply (step_not_no_reactants name data d t). now rewrite Hs.
    + apply IH.
    + discriminate.
Qed.

Lemma loop_continues_nonempty items d t d' :
  fst (reactant_loop MolFromSmiles CalcExactMolWt items d t)
  = Normal (Continues d') ->
  items <> [] \/ d <> [] ->
  d' <> [].
Proof.
  revert d t. induction items as [|[name data] items IH]; intros d t.
  - cbn. intros H [Hi | Hd]; [congruence|]. now injection H as <-.
  - cbn [reactant_loop]. unfold bind.
    destruct (reactant_step MolFromSmiles CalcExactMolWt name data d t)
      as [[[r'|d'']|e] t'] eqn:Hs; try discriminate.
    intros H _. apply (IH d'' t' H). right.
    apply (step_continues_nonempty name data d t). now rewrite Hs.
Qed.

Lemma calc_not_no_reactants reactants ps pr t r :
  reactants <> [] ->
  fst (calculate_theoretical_yield MolFromSmiles CalcExactMolWt
         reactants ps pr t) = Normal r ->
  r <> no_reactants.
Proof.
  intros Hne. unfold calculate_theoretical_yield, bind.
  destruct (reactant_loop MolFromSmiles CalcExactMolWt reactants [] t)
    as [[[r'|d]|e] t'] eqn:HL; [| |discriminate].
  - cbn. intros H. injection H as <-.
    apply (loop_not_no_reactants reactants [] t). now rewrite HL.
  - destruct d as [|e0 d].
    + exfalso.
      apply (loop_continues_nonempty reactants [] t []);
        [now rewrite HL | now left | reflexivity].
    + destruct (py_min _ _ t') as [[nm|e] t1]; [|discriminate].
      destruct (dict_getitem _ nm t1) as [[v|e] t2]; [|discriminate].
      unfold product_weight, try_except, bind, Chem_MolFromSmiles,
        Chem_CalcExactMolWt, external, ret, no_reactants.
      destruct (MolFromSmiles ps) as [[mol|]|e];
        [destruct (CalcExactMolWt mol) as [pw|e]|..];
        simpl; intros H E; rewrite E in H; discriminate H.
Qed.

(** X14.  Every run of the shell.  Whatever is typed, and however the
    resolver answers, the shell ends normally: no exception leaves it.
    Either it calls no resolver and ends on one of three messages (not a
    positive count, invalid input, end of input), or it calls the
    calculator exactly once, on a non-empty mapping with distinct names
    and complete records, and ends on the report of the record returned,
    which is never the NoReactants failure: "No valid reactants provided."
    cannot arise from the shell. *)
Theorem shell_session c :
  exists c',
    main MolFromSmiles CalcExactMolWt py_int py_float format_2f c
    = (Done tt, c') /\
    ((resolver_log c' = resolver_log c /\
      exists written closing,
        stdout c' = stdout c ++ banner ++ count_prompt :: written ++ [closing]
        /\ (closing = not_positive_message \/
            closing = invalid_input_message \/
            closing = unexpected_error_message "EOF when reading a line"))
     \/
     (exists data ps pr r evs written,
        data <> [] /\ NoDup (map fst data) /\ Forall complete data /\
        runs (calculate_theoretical_yield MolFromSmiles CalcExactMolWt
                data ps pr) (Normal r) evs /\
        r <> Error "No valid reactants provided." /\
        kind_of r <> Some NoReactants /\
        resolver_log c' = resolver_log c ++ evs /\
        stdout c' = stdout c ++ banner ++ count_prompt :: written
                    ++ report format_2f r)).
Proof.
  destruct c as [inp out log].
  cbv [main io_bind io_try print input parse io_ret write shell_handler
       stdin stdout resolver_log].
  destruct inp as [|text inp].
  { eexists. split; [reflexivity|]. left. split; [reflexivity|].
    exists [], (unexpected_error_message "EOF when reading a line").
    split; [same_output | auto]. }
  destruct (py_int text) as [n|].
  2:{ eexists. split; [reflexivity|]. left. split; [reflexivity|].
      exists [], invalid_input_message. split; [same_output | auto]. }
  destruct (n <=? 0)%Z eqn:Hn.
  { eexists. split; [reflexivity|]. left. split; [reflexivity|].
    exists [], not_positive_message. split; [same_output | auto]. }
  destruct (read_reactants py_float (Z.to_nat n) 0 [] _)
    as [[data|e] [inp2 out2 log2]] eqn:HR;
    destruct (read_reactants_inv py_float _ _ _ _ _ _ HR)
      as (Hlog & (written & Hout) & Ho);
    cbn [stdout resolver_log] in Hlog, Hout; subst log2 out2.
  - destruct Ho as (Hnd & Hc & Hne).
    specialize (Hnd (NoDup_nil _)). specialize (Hc (Forall_nil _)).
    assert (Hdata : data <> []).
    { apply Hne. apply Z.leb_gt in Hn. lia. }
    destruct inp2 as [|ps inp2].
    { eexists. split; [reflexivity|]. left. split; [reflexivity|].
      exists (written
              ++ [(newline ++ "Enter the SMILES code for the product: ")%string]),
        (unexpected_error_message "EOF when reading a line").
      split; [same_output | auto]. }
    destruct inp2 as [|rt inp2].
    { eexists. split; [reflexivity|]. left. split; [reflexivity|].
      exists (written ++ product_prompts),
        (unexpected_error_message "EOF when reading a line").
      split; [same_output | auto]. }
    destruct (py_float rt) as [pr|].
    2:{ eexists. split; [reflexivity|]. left. split; [reflexivity|].
        exists (written ++ product_prompts), invalid_input_message.
        split; [same_output | auto]. }
    destruct (calc_runs Mol MolFromSmiles CalcExactMolWt data ps pr)
      as (r & evs & R).
    assert (Hr : r <> no_reactants).
    { apply (calc_not_no_reactants data ps pr log r Hdata).
      now rewrite (R log). }
    assert (Hk : kind_of r <> Some NoReactants).
    { intros Hk. apply Hr. revert Hk. clear. unfold no_reactants.
      destruct r as [msg|y name]; [|discriminate]. cbn [kind_of].
      destruct (prefix "Invalid data for reactant '" msg); [discriminate|].
      destruct (prefix "Could not parse SMILES for " msg); [discriminate|].
      destruct (String.eqb_spec msg "No valid reactants provided.");
        [now subst|].
      destruct (prefix "An error occurred with " msg); discriminate. }
    cbv [call stdin stdout resolver_log]. rewrite (R log).
    destruct r as [msg|y name];
      (eexists; split; [reflexivity|]; right;
       eexists data, ps, pr, _, evs, (written ++ product_prompts);
       split; [exact Hdata|]; split; [exact Hnd|]; split; [exact Hc|];
       split; [exact R|]; split; [exact Hr|]; split; [exact Hk|];
       split; [reflexivity | same_output]).
  - destruct Ho as [-> | ->].
    + eexists. split; [reflexivity|]. left. split; [reflexivity|].
      exists written, (unexpected_error_message "EOF when reading a line").
      split; [same_output | auto].
    + eexists. split; [reflexivity|]. left. split; [reflexivity|].
      exists written, invalid_input_message.
      split; [same_output | auto].
Qed.

End Sessions.

(* ================================================================== *)
(** * Concrete runs, continued *)
(* ================================================================== *)

(** A resolver whose weighing fails for the molecule of ["odd"]. *)
Definition brittle_MolFromSmiles (s : string) : outcome (option float) :=
  if String.eqb s "CCO" then Normal (Some 46%float)
  else if String.eqb s "O" then Normal (Some 18%float)
  else if String.eqb s "odd" then Normal (Some (-1)%float)
  else Normal None.

Definition brittle_CalcExactMolWt (mol : float) : outcome float :=
  if (mol <? 0)%float then Raised (ResolverError "no weight")
  else Normal mol.

(** Parsers and a formatter for the few texts used below. *)
Definition table_int (s : string) : option Z :=
  if String.eqb s "2" then Some 2%Z
  else if String.eqb s "1" then Some 1%Z
  else if String.eqb s "0" then Some 0%Z
  else None.

Definition table_float (s : string) : option float :=
  if String.eqb s "46" then Some 46%float
  else if String.eqb s "9" then Some 9%float
  else if String.eqb s "1" then Some 1%float
  else None.

Definition table_format (y : float) : string :=
  if (y =? 18)%float then "18.00"
  else if (y =? 9)%float then "9.00"
  else "?".

Definition typed (name smi weight ratio : string) : entry :=
  {| entry_name := name; entry_smiles := smi; entry_weight := weight;
     entry_ratio := ratio |}.

Lemma two_calls_per_reactant :
  exists y name,
    runs (table_yield three_reactants "O" 1%float)
         (Normal (Success y name))
         (flat_map reactant_calls three_reactants
          ++ [MolFromSmilesCall ProductSite "O";
              CalcExactMolWtCall ProductSite]).
Proof.
  apply (success_calls float table_MolFromSmiles table_CalcExactMolWt
           three_reactants "O" 1%float
           [("ethanol", 1%float); ("water", 0.25%float); ("steam", 0.25%float)]
           18%float ltac:(discriminate) eq_refl eq_refl).
Defined.

Lemma nothing_after_a_failure :
  table_yield ([("a", reactant "CCO" 46 1)] ++ ("b", reactant "???" 1 1)
               :: [("c", reactant "O" 9 1)]) "O" 1%float []
  = table_yield ([("a", reactant "CCO" 46 1)] ++ ("b", reactant "???" 1 1)
                 :: []) "???" 0%float [].
Proof.
  apply (later_input_ignored float table_MolFromSmiles table_CalcExactMolWt
           [("a", reactant "CCO" 46 1)] "b" (reactant "???" 1 1)
           [("c", reactant "O" 9 1)] [] "O" "???" 1%float 0%float eq_refl []).
Defined.

Lemma zero_ratio_fails :
  kind_of (reactant_fault "b" (ZeroDivisionError "float division by zero"))
  = Some UnexpectedFailure /\
  exists evs,
    runs (table_yield ([("a", reactant "CCO" 46 1)]
                       ++ ("b", reactant "O" 9 0) :: []) "O" 1%float)
         (Normal (reactant_fault "b"
                    (ZeroDivisionError "float division by zero"))) evs
    /\ reactant_only evs.
Proof.
  apply (zero_ratio_caught float table_MolFromSmiles table_CalcExactMolWt
           [("a", reactant "CCO" 46 1)] "b" (reactant "O" 9 0) [] "O" 1%float
           [("a", 1%float)] "O" 9%float 18%float 18%float
           eq_refl eq_refl eq_refl eq_refl eq_refl eq_refl eq_refl eq_refl
           eq_refl).
Defined.

Lemma weighing_fault_fails :
  exists evs,
    runs (calculate_theoretical_yield brittle_MolFromSmiles
            brittle_CalcExactMolWt [("a", reactant "CCO" 46 1)] "odd" 1%float)
         (Normal (product_fault (ResolverError "no weight"))) evs.
Proof.
  apply (proj2
           (weight_fault_returned float brittle_MolFromSmiles
              brittle_CalcExactMolWt [("a", reactant "CCO" 46 1)] "odd"
              1%float (-1)%float (ResolverError "no weight") eq_refl)
           [("a", 1%float)] ltac:(discriminate) eq_refl eq_refl).
Defined.

(** Reversing the three reactants brings steam before water: the yield
    is the same and the reported reactant changes from one of the two
    tied reactants to the other. *)
Lemma reversed_order_same_yield :
  exists v name data name' data' evs evs',
    runs (table_yield three_reactants "O" 1%float)
         (Normal (Success ((v * 1) * 18)%float name)) evs /\
    runs (table_yield (rev three_reactants) "O" 1%float)
         (Normal (Success ((v * 1) * 18)%float name')) evs' /\
    In (name, data) three_reactants /\ In (name', data') three_reactants /\
    normalized_moles table_MolFromSmiles table_CalcExactMolWt data = Some v /\
    normalized_moles table_MolFromSmiles table_CalcExactMolWt data' = Some v /\
    (forall n d,
       In (n, d) three_reactants ->
       exists v',
         normalized_moles table_MolFromSmiles table_CalcExactMolWt d
         = Some v' /\
         (v <=? v')%float = true) /\
    ((forall n d,
        In (n, d) three_reactants ->
        normalized_moles table_MolFromSmiles table_CalcExactMolWt d = Some v ->
        n = name) ->
     name' = name).
Proof.
  apply (yield_order_independent float table_MolFromSmiles
           table_CalcExactMolWt three_reactants (rev three_reactants)
           "O" 1%float 18%float (Permutation_rev three_reactants)
           ltac:(discriminate) ltac:(distinct_names) eq_refl eq_refl).
Defined.

Example reversed_order_run :
  fst (table_yield (rev three_reactants) "O" 1%float [])
  = Normal (Success 4.5%float "steam").
Proof. reflexivity. Qed.

Lemma nan_mass_first :
  exists y evs,
    runs (table_yield [("a", reactant "CCO" nan 1); ("b", reactant "O" 9 1)]
            "O" 1%float)
         (Normal (Success y "a")) evs /\
    is_nan y = true.
Proof.
  apply (proj1
           (nan_count_first_only float table_MolFromSmiles
              table_CalcExactMolWt
              [("a", reactant "CCO" nan 1); ("b", reactant "O" 9 1)]
              "O" 1%float [("a", nan); ("b", 0.5%float)] 18%float
              ltac:(distinct_names) eq_refl eq_refl)
           "a" nan [("b", 0.5%float)] eq_refl eq_refl).
Defined.

Lemma three_reactants_yield_nonnegative :
  exists y name evs,
    runs (table_yield three_reactants "O" 1%float)
         (Normal (Success y name)) evs /\
    (0 <=? y)%float = true /\ is_nan y = false.
Proof.
  apply (yield_nonnegative float table_MolFromSmiles table_CalcExactMolWt
           three_reactants "O" 1%float 18%float
           ltac:(discriminate) ltac:(distinct_names)
           eq_refl eq_refl eq_refl eq_refl).
Defined.

(** Two entries under the name "ethanol": the second replaces the first. *)
Lemma ethanol_entered_twice :
  exists data,
    read_reactants table_float
      (List.length ([typed "ethanol" "CCO" "46" "1"]
                    ++ typed "ethanol" "O" "9" "1" :: [])) 0 []
      {| stdin := flat_map entry_lines
                    ([typed "ethanol" "CCO" "46" "1"]
                     ++ typed "ethanol" "O" "9" "1" :: [])
                  ++ ["O"; "1"];
         stdout := []; resolver_log := [] |}
    = (Done data,
       {| stdin := ["O"; "1"];
          stdout := [] ++ session_prompts 0
                            ([typed "ethanol" "CCO" "46" "1"]
                             ++ typed "ethanol" "O" "9" "1" :: []);
          resolver_log := [] |})
    /\ items_get data "ethanol"
       = entry_data table_float (typed "ethanol" "O" "9" "1")
    /\ NoDup (map fst data).
Proof.
  apply (last_entry_wins table_float
           [typed "ethanol" "CCO" "46" "1"] (typed "ethanol" "O" "9" "1") []
           ["O"; "1"] [] []
           ltac:(discriminate) (fun e' (H : In e' []) => match H with end)).
Defined.

Lemma zero_count_session :
  main table_MolFromSmiles table_CalcExactMolWt table_int table_float
    table_format
    {| stdin := ["0"; "ethanol"]; stdout := []; resolver_log := [] |}
  = (Done tt,
     {| stdin := ["ethanol"];
        stdout := [] ++ banner ++ [count_prompt; not_positive_message];
        resolver_log := [] |}).
Proof.
  apply (count_not_positive float table_MolFromSmiles table_CalcExactMolWt
           table_int table_float table_format
           {| stdin := ["0"; "ethanol"]; stdout := []; resolver_log := [] |}
           "0" ["ethanol"] eq_refl
           (or_intror (ex_intro _ 0%Z (conj eq_refl (Z.le_refl 0))))).
Defined.

Lemma ethanol_session :
  main table_MolFromSmiles table_CalcExactMolWt table_int table_float
    table_format
    {| stdin := "1" :: flat_map entry_lines [typed "ethanol" "CCO" "46" "1"]
                ++ "O" :: "1" :: ["left over"];
       stdout := []; resolver_log := [] |}
  = (Done tt,
     {| stdin := ["left over"];
        stdout := [] ++ banner ++ count_prompt
                  :: session_prompts 0 [typed "ethanol" "CCO" "46" "1"]
                  ++ product_prompts
                  ++ report table_format (Success 18 "ethanol");
        resolver_log :=
          [MolFromSmilesCall (ReactantSite "ethanol") "CCO";
           CalcExactMolWtCall (ReactantSite "ethanol");
           MolFromSmilesCall ProductSite "O";
           CalcExactMolWtCall ProductSite] |}).
Proof.
  apply (complete_session float table_MolFromSmiles table_CalcExactMolWt
           table_int table_float table_format
           [typed "ethanol" "CCO" "46" "1"] "1" "O" "1" 1%float
           ["left over"] [] [] [("ethanol", reactant "CCO" 46 1)]
           (Success 18 "ethanol") _
           ltac:(discriminate) eq_refl eq_refl eq_refl eq_refl).
Defined.

Lemma mistyped_weight_session :
  exists written,
    main table_MolFromSmiles table_CalcExactMolWt table_int table_float
      table_format
      {| stdin := "2" :: flat_map entry_lines [typed "ethanol" "CCO" "46" "1"]
                  ++ "water" :: "O" :: ["nine"; "1"];
         stdout := []; resolver_log := [] |}
    = (Done tt,
       {| stdin := ["1"];
          stdout := [] ++ banner ++ count_prompt :: written
                    ++ [invalid_input_message];
          resolver_log := [] |}).
Proof.
  apply (bad_number_stops float table_MolFromSmiles table_CalcExactMolWt
           table_int table_float table_format
           [typed "ethanol" "CCO" "46" "1"] "2" 2%Z "water" "O"
           ["nine"; "1"] ["1"] [] [] [("ethanol", reactant "CCO" 46 1)]
           eq_refl ltac:(cbn; lia) eq_refl
           (or_introl (ex_intro _ "nine" (conj eq_refl eq_refl)))).
Defined.

Lemma same_limiting_reactant_for_two_products :
  match fst (table_yield three_reactants "CCO" 9%float []) with
  | Normal (Success _ name') => name' = "water"
  | Normal (Error _) =>
      exact_weight table_MolFromSmiles table_CalcExactMolWt "CCO" = None
  | Raised _ => False
  end.
Proof.
  apply (limiting_reactant_from_reactants float table_MolFromSmiles
           table_CalcExactMolWt three_reactants "O" 1%float
           4.5%float "water" [] eq_refl "CCO" 9%float []).
Defined.
